(** * compare-benchmarks.py: a shallow embedding and its properties

    The script [.github/compare-benchmarks.py] loads two JMH result files,
    matches their entries by (benchmark, sorted params), and renders a
    Markdown table.  This development embeds the script in Gallina:

    - Python exceptions are an explicit [result] type;
    - the objects [json.load] can return are the types [atom] and [json];
      floats are IEEE binary64 ([PrimFloat]), integers are unbounded ([Z]),
      [str] is [string] holding UTF-8 (whose byte order is the code point
      order Python compares by);
    - the format specifications [.6g], [.3f] and [+.1f] are computed on the
      exact binary value with round-half-even, as CPython does;
    - the iteration order of a Python [set] is an explicit parameter;
    - [print] is a write to an explicit [world]. *)

From Stdlib Require Import ZArith List String Ascii Bool Lia.
From Stdlib Require Import Floats DecimalString Permutation Sorted.
Import ListNotations.

Set Warnings "-register-all".

Local Open Scope list_scope.
Local Open Scope string_scope.

(** ** Exceptions *)

(** What [open] and the read can raise besides [FileNotFoundError] and
    [json.JSONDecodeError], the two that [load] catches. *)
Inductive read_error : Type :=
| PermissionError
| IsADirectoryError
| UnicodeDecodeError.

(** The exceptions that leave a function of the script. *)
Inductive exn : Type :=
| TypeError
| AttributeError
| OverflowError
| ZeroDivisionError
| ReadError (e : read_error)
| SystemExit (code : Z).

Inductive result (A : Type) : Type :=
| OK (a : A)
| Raise (e : exn).

Arguments OK {A} a.
Arguments Raise {A} e.

Definition bind {A B : Type} (m : result A) (k : A -> result B) : result B :=
  match m with
  | OK a => k a
  | Raise e => Raise e
  end.

Notation "x <- m ;; k" := (bind m (fun x => k))
  (at level 61, m at next level, right associativity).
Notation "' p <- m ;; k" := (bind m (fun x => let p := x in k))
  (at level 61, p pattern, m at next level, right associativity).

Fixpoint mapM {A B : Type} (f : A -> result B) (l : list A) : result (list B) :=
  match l with
  | [] => OK []
  | x :: l' => y <- f x ;; ys <- mapM f l' ;; OK (y :: ys)
  end.

(** ** Python values *)

(** The hashable objects [json.load] returns: they are the only ones that can
    occur inside a dictionary key. *)
Inductive atom : Type :=
| PyNone
| PyBool (b : bool)
| PyInt (n : Z)
| PyFloat (f : float)
| PyStr (s : string).

(** Every object [json.load] returns.  A [JDict] lists the items of a Python
    dict in insertion order; its names are pairwise distinct. *)
Inductive json : Type :=
| JAtom (a : atom)
| JList (l : list json)
| JDict (d : list (string * json)).

Definition JNull : json := JAtom PyNone.
Definition JStr (s : string) : json := JAtom (PyStr s).
Definition JInt (n : Z) : json := JAtom (PyInt n).
Definition JFloat (f : float) : json := JAtom (PyFloat f).
Definition JBool (b : bool) : json := JAtom (PyBool b).

(** [d.get(k)] on a dict with string names. *)
Fixpoint dict_get (d : list (string * json)) (k : string) : option json :=
  match d with
  | [] => None
  | (k', v) :: d' => if (k' =? k) then Some v else dict_get d' k
  end.

(** [bool(x)] *)
Definition truthy (x : json) : bool :=
  match x with
  | JAtom PyNone => false
  | JAtom (PyBool b) => b
  | JAtom (PyInt n) => negb (n =? 0)%Z
  | JAtom (PyFloat f) => negb (f =? 0)%float
  | JAtom (PyStr s) => negb (s =? "")
  | JList l => match l with [] => false | _ => true end
  | JDict d => match d with [] => false | _ => true end
  end.

(** *** Numbers: [bool] is a subclass of [int]; [int] and [float] compare by
    exact value. *)

Inductive num : Type :=
| NInt (n : Z)
| NFloat (f : float).

Definition as_num (a : atom) : option num :=
  match a with
  | PyBool b => Some (NInt (Z.b2z b))
  | PyInt n => Some (NInt n)
  | PyFloat f => Some (NFloat f)
  | _ => None
  end.

(** The exact value of a float against an integer; [None] for NaN. *)
Definition float_cmp_Z (f : float) (n : Z) : option comparison :=
  match Prim2SF f with
  | S754_nan => None
  | S754_infinity s => Some (if s then Lt else Gt)
  | S754_zero _ => Some (0 ?= n)%Z
  | S754_finite s m e =>
      let v := if s then Zneg m else Zpos m in
      Some (if (0 <=? e)%Z then (v * 2 ^ e ?= n)%Z else (v ?= n * 2 ^ (- e))%Z)
  end.

Definition num_eqb (x y : num) : bool :=
  match x, y with
  | NInt a, NInt b => (a =? b)%Z
  | NFloat f, NFloat g => (f =? g)%float
  | NFloat f, NInt b => match float_cmp_Z f b with Some Eq => true | _ => false end
  | NInt a, NFloat g => match float_cmp_Z g a with Some Eq => true | _ => false end
  end.

Definition num_ltb (x y : num) : bool :=
  match x, y with
  | NInt a, NInt b => (a <? b)%Z
  | NFloat f, NFloat g => (f <? g)%float
  | NFloat f, NInt b => match float_cmp_Z f b with Some Lt => true | _ => false end
  | NInt a, NFloat g => match float_cmp_Z g a with Some Gt => true | _ => false end
  end.

(** [a == b] *)
Definition py_eq (a b : atom) : bool :=
  match a, b with
  | PyNone, PyNone => true
  | PyStr s, PyStr t => (s =? t)
  | _, _ =>
      match as_num a, as_num b with
      | Some x, Some y => num_eqb x y
      | _, _ => false
      end
  end.

Definition is_nan (a : atom) : bool :=
  match a with
  | PyFloat f => negb (f =? f)%float
  | _ => false
  end.

(** [a is b or a == b], the test tuples, sets and dicts apply to their
    items.  It differs from [==] on NaN only: [json.load] returns the one
    object [json.decoder.NaN] for every [NaN] literal, so inside keys a NaN
    is identical to a NaN. *)
Definition py_same (a b : atom) : bool :=
  (is_nan a && is_nan b) || py_eq a b.

(** [a < b]: a [TypeError] between [str] and numbers and on [None]. *)
Definition py_lt (a b : atom) : result bool :=
  match a, b with
  | PyStr s, PyStr t => OK (String.ltb s t)
  | _, _ =>
      match as_num a, as_num b with
      | Some x, Some y => OK (num_ltb x y)
      | _, _ => Raise TypeError
      end
  end.

(** [float(n)] for an [int]: the nearest binary64, ties to even, and an
    [OverflowError] when that is infinite. *)
Definition float_of_Z (n : Z) : result float :=
  match binary_normalize prec emax n 0 false with
  | S754_infinity _ => Raise OverflowError
  | sf => OK (SF2Prim sf)
  end.

(** [essential_num_types = (int, float)] and [isinstance(x, essential_num_types)] *)
Definition is_essential_num (x : json) : bool :=
  match x with
  | JAtom (PyBool _) | JAtom (PyInt _) | JAtom (PyFloat _) => true
  | _ => false
  end.

(** [float(x)] where [isinstance(x, essential_num_types)] *)
Definition to_float (x : json) : result float :=
  match x with
  | JAtom (PyBool b) => OK (if b then 1%float else 0%float)
  | JAtom (PyInt n) => float_of_Z n
  | JAtom (PyFloat f) => OK f
  | _ => Raise TypeError
  end.

(** [y / x] on floats *)
Definition truediv (y x : float) : result float :=
  if (x =? 0)%float then Raise ZeroDivisionError else OK (y / x)%float.

(** ** Number formatting *)

(** [str(n)] for an [int] *)
Definition digits (n : Z) : string := NilZero.string_of_int (Z.to_int n).

Fixpoint zeros (n : nat) : string :=
  match n with
  | O => ""
  | S k => String "0" (zeros k)
  end.

Definition zfill (w : nat) (s : string) : string :=
  zeros (w - String.length s) ++ s.

(** The integer nearest to [n / d], ties to even ([0 < d]). *)
Definition round_half_even (n d : Z) : Z :=
  let q := (n / d)%Z in
  let r := (n mod d)%Z in
  match (2 * r ?= d)%Z with
  | Lt => q
  | Gt => (q + 1)%Z
  | Eq => if Z.even q then q else (q + 1)%Z
  end.

Definition digit_char (d : Z) : ascii := ascii_of_N (48 + Z.to_N d).

(** The last [p] decimal digits of [N]. *)
Fixpoint frac_digits (p : nat) (N : Z) : string :=
  match p with
  | O => ""
  | S k => frac_digits k (N / 10) ++ String (digit_char (N mod 10)) ""
  end.

(** [N / 10^p] written with exactly [p] decimals ([0 <= N]). *)
Definition fixed_point (p : nat) (N : Z) : string :=
  digits (N / 10 ^ Z.of_nat p) ++
  match p with
  | O => ""
  | _ => "." ++ frac_digits p N
  end.

(** The magnitude [m * 2^e] of a finite float as a fraction. *)
Definition dyadic (m : positive) (e : Z) : Z * Z :=
  if (0 <=? e)%Z then (Zpos m * 2 ^ e, 1)%Z else (Zpos m, 2 ^ (- e))%Z.

Definition sign_str (always : bool) (neg : bool) : string :=
  if neg then "-" else if always then "+" else "".

(** [format(x, ".pf")], and [format(x, "+.pf")] when [always] is set: the
    sign of a NaN is ignored. *)
Definition format_f (always : bool) (p : nat) (x : float) : string :=
  match Prim2SF x with
  | S754_nan => sign_str always false ++ "nan"
  | S754_infinity s => sign_str always s ++ "inf"
  | S754_zero s => sign_str always s ++ fixed_point p 0
  | S754_finite s m e =>
      let '(n, d) := dyadic m e in
      sign_str always s ++ fixed_point p (round_half_even (n * 10 ^ Z.of_nat p) d)
  end.

(** The least [k] with [d <= n * 10^k], negated. *)
Fixpoint lead (fuel : nat) (n d k : Z) : Z :=
  match fuel with
  | O => (- k)%Z
  | S fuel' => if (d <=? n)%Z then (- k)%Z else lead fuel' (n * 10)%Z d (k + 1)%Z
  end.

(** [X] with [10^X <= n / d < 10^(X+1)], for the magnitude of a finite
    nonzero binary64 (at least [2^-1074], so 400 steps are enough). *)
Definition decimal_exponent (n d : Z) : Z :=
  if (d <=? n)%Z
  then (Z.of_nat (String.length (digits (n / d))) - 1)%Z
  else lead 400 n d 0.

Fixpoint rstrip0 (s : string) : string :=
  match s with
  | EmptyString => EmptyString
  | String c t =>
      let t' := rstrip0 t in
      if (t' =? "") && (c =? "0")%char then EmptyString else String c t'
  end.

(** [n / d] rounded to [P] significant digits: the digits and the decimal
    exponent of the first one. *)
Definition significant (P : nat) (n d : Z) : Z * Z :=
  let X := decimal_exponent n d in
  let s := (Z.of_nat P - 1 - X)%Z in
  let D := if (0 <=? s)%Z
           then round_half_even (n * 10 ^ s) d
           else round_half_even n (d * 10 ^ (- s)) in
  if (10 ^ Z.of_nat P <=? D)%Z then (10 ^ (Z.of_nat P - 1), X + 1)%Z else (D, X).

(** The layout of [g]: fixed notation when [-4 <= X < P], else an exponent
    of at least two digits; trailing zeros are removed in both. *)
Definition layout_g (P : nat) (D X : Z) : string :=
  let st := rstrip0 (digits D) in
  let L := String.length st in
  if ((-4 <=? X) && (X <? Z.of_nat P))%Z
  then
    if (X <? 0)%Z
    then "0." ++ zeros (Z.to_nat (- X - 1)) ++ st
    else
      let i := Z.to_nat (X + 1) in
      if (L <=? i)%nat
      then st ++ zeros (i - L)
      else substring 0 i st ++ "." ++ substring i (L - i) st
  else
    (if (L <=? 1)%nat then st else substring 0 1 st ++ "." ++ substring 1 (L - 1) st)
    ++ "e" ++ (if (X <? 0)%Z then "-" else "+") ++ zfill 2 (digits (Z.abs X)).

(** [format(x, ".Pg")] *)
Definition format_g (P : nat) (x : float) : string :=
  match Prim2SF x with
  | S754_nan => "nan"
  | S754_infinity s => sign_str false s ++ "inf"
  | S754_zero s => sign_str false s ++ "0"
  | S754_finite s m e =>
      let '(n, d) := dyadic m e in
      let '(D, X) := significant P n d in
      sign_str false s ++ layout_g P D X
  end.

(** ** [repr] and [str] *)

(** [repr(x)] for a float is the shortest decimal that reads back as [x].
    A decimal reads back as [m * 2^e] when it lies between the midpoints to
    the two neighbouring floats (the midpoints included when [m] is even).
    With [q = 2^(e-2)] the float is [4m * q], the upper midpoint
    [(4m+2) * q], and the lower one [(4m-2) * q], or [(4m-1) * q] when [m]
    is the least mantissa of its binade. *)
Definition reads_back (m : positive) (e : Z) (c s : Z) : bool :=
  (* is [c * 10^(-s)] inside the interval of [m * 2^e]? *)
  let lo := if ((Zpos m =? 2 ^ 52) && (-1074 <? e))%Z
            then (4 * Zpos m - 1)%Z else (4 * Zpos m - 2)%Z in
  let hi := (4 * Zpos m + 2)%Z in
  let e2 := (e - 2)%Z in
  (* compare [c * 10^(-s)] with [b * 2^e2] by cross multiplication *)
  let cmp (b : Z) : comparison :=
    let cl := (c * (if s <? 0 then 10 ^ (- s) else 1) * (if e2 <? 0 then 2 ^ (- e2) else 1))%Z in
    let br := (b * (if e2 <? 0 then 1 else 2 ^ e2) * (if s <? 0 then 1 else 10 ^ s))%Z in
    (cl ?= br)%Z in
  let even := Z.even (Zpos m) in
  match cmp lo, cmp hi with
  | Gt, Lt => true
  | Eq, Lt | Gt, Eq => even
  | _, _ => false
  end.

(** The shortest digits, tried from one digit up to [P]; of the two
    candidates around the value the nearer one that reads back is taken. *)
Fixpoint shortest (fuel : nat) (P : Z) (m : positive) (e : Z) (n d X : Z) : Z * Z :=
  let s := (P - 1 - X)%Z in
  let num := if (0 <=? s)%Z then (n * 10 ^ s)%Z else n in
  let den := if (0 <=? s)%Z then d else (d * 10 ^ (- s))%Z in
  let near := round_half_even num den in
  let down := (num / den)%Z in
  let far := if (near =? down)%Z then (down + 1)%Z else down in
  let norm (c : Z) := if (10 ^ P <=? c)%Z then (10 ^ (P - 1), X + 1)%Z else (c, X) in
  match fuel with
  | O => norm near
  | S fuel' =>
      if reads_back m e near s then norm near
      else if reads_back m e far s then norm far
      else shortest fuel' (P + 1)%Z m e n d X
  end.

(** The layout of [repr]: fixed notation when [-4 <= X < 16], with [.0]
    after an integer; else an exponent. *)
Definition layout_r (D X : Z) : string :=
  let st := rstrip0 (digits D) in
  let L := String.length st in
  if ((-4 <=? X) && (X <? 16))%Z
  then
    if (X <? 0)%Z
    then "0." ++ zeros (Z.to_nat (- X - 1)) ++ st
    else
      let i := Z.to_nat (X + 1) in
      if (L <=? i)%nat
      then st ++ zeros (i - L) ++ ".0"
      else substring 0 i st ++ "." ++ substring i (L - i) st
  else
    (if (L <=? 1)%nat then st else substring 0 1 st ++ "." ++ substring 1 (L - 1) st)
    ++ "e" ++ (if (X <? 0)%Z then "-" else "+") ++ zfill 2 (digits (Z.abs X)).

(** [repr(x)] and [str(x)] for a float *)
Definition repr_float (x : float) : string :=
  match Prim2SF x with
  | S754_nan => "nan"
  | S754_infinity s => sign_str false s ++ "inf"
  | S754_zero s => sign_str false s ++ "0.0"
  | S754_finite s m e =>
      let '(n, d) := dyadic m e in
      let '(D, X) := shortest 16 1 m e n d (decimal_exponent n d) in
      sign_str false s ++ layout_r D X
  end.

Definition hex_digit (n : N) : ascii :=
  ascii_of_N (if (n <? 10)%N then 48 + n else 87 + n).

(** One character of [repr(s)] between quotes [q].  Bytes above 127 belong
    to UTF-8 sequences of characters that are taken to be printable. *)
Definition repr_char (q : ascii) (c : ascii) : string :=
  let n := N_of_ascii c in
  if (c =? q)%char || (c =? "\")%char then String "\" (String c "")
  else if (n =? 9)%N then "\t"
  else if (n =? 10)%N then "\n"
  else if (n =? 13)%N then "\r"
  else if ((n <? 32) || (n =? 127))%N
       then "\x" ++ String (hex_digit (n / 16)) (String (hex_digit (n mod 16)) "")
  else String c "".

Fixpoint has_char (c : ascii) (s : string) : bool :=
  match s with
  | EmptyString => false
  | String c' t => (c' =? c)%char || has_char c t
  end.

Fixpoint flat_map_str (f : ascii -> string) (s : string) : string :=
  match s with
  | EmptyString => EmptyString
  | String c t => f c ++ flat_map_str f t
  end.

(** [repr(s)] for a [str]: single quotes, unless [s] holds a single quote
    and no double quote. *)
Definition dquote : ascii := ascii_of_N 34.

Definition repr_str (s : string) : string :=
  let q : ascii := if has_char "'" s && negb (has_char dquote s) then dquote else "'"%char in
  String q (flat_map_str (repr_char q) s) ++ String q "".

Definition str_atom (a : atom) : string :=
  match a with
  | PyNone => "None"
  | PyBool b => if b then "True" else "False"
  | PyInt n => digits n
  | PyFloat f => repr_float f
  | PyStr s => s
  end.

Definition repr_atom (a : atom) : string :=
  match a with
  | PyStr s => repr_str s
  | _ => str_atom a
  end.

Fixpoint py_repr (x : json) : string :=
  match x with
  | JAtom a => repr_atom a
  | JList l => "[" ++ String.concat ", " (map py_repr l) ++ "]"
  | JDict d =>
      "{" ++ String.concat ", "
               (map (fun kv => repr_str (fst kv) ++ ": " ++ py_repr (snd kv)) d) ++ "}"
  end.

(** [str(x)], which is also what [f"{x}"] inserts *)
Definition py_str (x : json) : string :=
  match x with
  | JAtom a => str_atom a
  | _ => py_repr x
  end.

(** ** Keys, sets of keys and loaded sets *)

(** [Key = Tuple[str, Tuple[Tuple[str, Any], ...]]]: the benchmark and the
    sorted items of the params.  Both [Any] and the benchmark (which
    [e.get("benchmark", "")] does not check to be a [str]) are hashable
    objects. *)
Definition Key : Type := (atom * list (string * atom))%type.

Definition Entry : Type := json.

(** [Dict[Key, Entry]], in insertion order. *)
Definition LoadedSet : Type := list (Key * Entry).

Definition pair_same (x y : string * atom) : bool :=
  (fst x =? fst y) && py_same (snd x) (snd y).

Fixpoint params_same (p q : list (string * atom)) : bool :=
  match p, q with
  | [], [] => true
  | x :: p', y :: q' => pair_same x y && params_same p' q'
  | _, _ => false
  end.

(** Equality of keys as a dict or a set tests it; tuples compare item by
    item with [py_same]. *)
Definition key_same (k1 k2 : Key) : bool :=
  py_same (fst k1) (fst k2) && params_same (snd k1) (snd k2).

(** [x < y] on tuples: the first items that are not the same decide, and a
    proper prefix is smaller. *)
Definition pair_lt (x y : string * atom) : result bool :=
  if (fst x =? fst y)
  then if py_same (snd x) (snd y) then OK false else py_lt (snd x) (snd y)
  else OK (String.ltb (fst x) (fst y)).

Fixpoint params_lt (p q : list (string * atom)) : result bool :=
  match p, q with
  | [], [] => OK false
  | [], _ :: _ => OK true
  | _ :: _, [] => OK false
  | x :: p', y :: q' => if pair_same x y then params_lt p' q' else pair_lt x y
  end.

Definition key_lt (k1 k2 : Key) : result bool :=
  if py_same (fst k1) (fst k2)
  then params_lt (snd k1) (snd k2)
  else py_lt (fst k1) (fst k2).

(** [sorted(l)]: a stable sort that only asks [<], here by insertion; the
    first comparison that raises ends it.  On two items it asks, as
    CPython does, whether the second is smaller than the first. *)
Section Sorted.
Context {A : Type} (lt : A -> A -> result bool).

Fixpoint insert (x : A) (l : list A) : result (list A) :=
  match l with
  | [] => OK [x]
  | y :: l' =>
      b <- lt y x ;;
      if b then (r <- insert x l' ;; OK (y :: r)) else OK (x :: l)
  end.

Fixpoint sorted (l : list A) : result (list A) :=
  match l with
  | [] => OK []
  | x :: l' => s <- sorted l' ;; insert x s
  end.

End Sorted.

(** [d.get(k)] and [d[k] = e] on a loaded set: a key that is already there
    stays, with the new entry. *)
Fixpoint ls_get (d : LoadedSet) (k : Key) : option Entry :=
  match d with
  | [] => None
  | (k', e) :: d' => if key_same k' k then Some e else ls_get d' k
  end.

Fixpoint ls_set (d : LoadedSet) (k : Key) (e : Entry) : LoadedSet :=
  match d with
  | [] => [(k, e)]
  | (k', e') :: d' =>
      if key_same k' k then (k', e) :: d' else (k', e') :: ls_set d' k e
  end.

Definition keys (d : LoadedSet) : list Key := map fst d.

(** [s.add(k)], [set(l)] and [s | t]: the items of a set, each once.  The
    order of this list means nothing: whoever iterates a set meets its
    items in an order of the interpreter's choosing (see [set_iter] below). *)
Definition set_add (s : list Key) (k : Key) : list Key :=
  if existsb (key_same k) s then s else (s ++ [k])%list.

Definition set_of (l : list Key) : list Key := fold_left set_add l [].

Definition set_union (s t : list Key) : list Key := fold_left set_add t s.

(** ** The script *)

Definition EM_DASH : string := "—".

(** *** [load] *)

(** What [open(path)] followed by [json.load(f)] comes to. *)
Inductive read_outcome : Type :=
| FileNotFound                 (* [open] raises [FileNotFoundError] *)
| ReadFails (e : read_error)   (* [open] or the read raises another exception *)
| JSONDecodeError (msg : string)
| Parsed (data : json).

Record world : Type := { stdout : list string; stderr : list string }.

Definition print (s : string) (w : world) : world :=
  {| stdout := (stdout w ++ [s])%list; stderr := stderr w |}.

Definition eprint (s : string) (w : world) : world :=
  {| stdout := stdout w; stderr := (stderr w ++ [s])%list |}.

Definition get_or (d : list (string * json)) (k : string) (default : json) : json :=
  match dict_get d k with
  | Some v => v
  | None => default
  end.

Definition as_dict (x : json) : list (string * json) :=
  match x with
  | JDict d => d
  | _ => []
  end.

(** The hash of a key hashes its items: a list or a dict among them is a
    [TypeError]. *)
Definition hashable (x : json) : result atom :=
  match x with
  | JAtom a => OK a
  | _ => Raise TypeError
  end.

(** [sorted(params.items())] compares the names only: the names of a dict
    are distinct, so no comparison of two items reaches the values. *)
Definition item_lt (x y : string * json) : result bool :=
  OK (String.ltb (fst x) (fst y)).

(** Lines 49 to 51: [e.get("params") or {}], and [{}] in place of what is
    no dict. *)
Definition entry_params (e : list (string * json)) : list (string * json) :=
  as_dict match dict_get e "params" with
          | Some v => if truthy v then v else JDict []
          | None => JDict []
          end.

(** The key of one entry [e] (lines 48 to 52) as [result[key] = e] hashes it. *)
Definition entry_key (e : list (string * json)) : result Key :=
  let bench := get_or e "benchmark" (JStr "") in
  let params := entry_params e in
  items <- sorted item_lt params ;;
  b <- hashable bench ;;
  ps <- mapM (fun kv => v <- hashable (snd kv) ;; OK (fst kv, v)) items ;;
  OK (b, ps).

(** The loop of lines 45 to 53 over [data], [res] being the dict [result]. *)
Fixpoint load_entries (data : list json) (res : LoadedSet) : result LoadedSet :=
  match data with
  | [] => OK res
  | e :: data' =>
      match e with
      | JDict d => key <- entry_key d ;; load_entries data' (ls_set res key e)
      | _ => load_entries data' res
      end
  end.

Definition load (fs : string -> read_outcome) (path : string) (w : world)
  : result LoadedSet * world :=
  match fs path with
  | FileNotFound => (OK [], w)
  | ReadFails e => (Raise (ReadError e), w)
  | JSONDecodeError msg =>
      (Raise (SystemExit 2),
       eprint ("error: failed to parse JSON from " ++ path ++ ": " ++ msg) w)
  | Parsed (JList data) => (load_entries data [], w)
  | Parsed _ =>
      (OK [], eprint ("warning: " ++ path ++ " did not contain a list; ignoring.") w)
  end.

(** *** [_score_and_unit] and [_numeric_score] *)

(** [m.get(k, default)] where [m] may be anything: only a dict has [get]. *)
Definition attr_get (m : json) (k : string) (default : json) : result json :=
  match m with
  | JDict md => OK (get_or md k default)
  | _ => Raise AttributeError
  end.

Definition is_none (x : json) : bool :=
  match x with
  | JAtom PyNone => true
  | _ => false
  end.

Definition _score_and_unit (e : option Entry) : result (string * string) :=
  match e with
  | None => OK (EM_DASH, "")
  | Some e =>
      if negb (truthy e) then OK (EM_DASH, "")
      else
        let m := match e with
                 | JDict d => get_or d "primaryMetric" (JDict [])
                 | _ => JDict []
                 end in
        score <- attr_get m "score" JNull ;;
        unit <- attr_get m "scoreUnit" (JStr "") ;;
        if is_essential_num score
        then f <- to_float score ;; OK (format_g 6 f, py_str unit)
        else OK (py_str (if is_none score then JStr EM_DASH else score), py_str unit)
  end.

Definition _numeric_score (e : option Entry) : result (option float) :=
  match e with
  | Some (JDict d) =>
      if negb (truthy (JDict d)) then OK None
      else
        let m := get_or d "primaryMetric" (JDict []) in
        score <- attr_get m "score" JNull ;;
        if is_essential_num score
        then f <- to_float score ;; OK (Some f)
        else OK None
  | _ => OK None
  end.

(** *** [compare_to_markdown] *)

(** [a or b] on strings *)
Definition str_or (a b : string) : string := if (a =? "") then b else a.

(** The cells of one table row. *)
Record Row : Type := {
  r_bench : string;
  r_params : string;
  r_base : string;
  r_cur : string;
  r_delta : string;
  r_unit : string
}.

(** Lines 98 to 103, once both scores are numbers. *)
Definition delta_str (bscore cscore : float) : result string :=
  if (bscore =? 0)%float then OK "n/a"
  else
    delta <- truediv cscore bscore ;;
    OK (format_f false 3 delta ++ "× (" ++ format_f true 1 ((delta - 1) * 100)%float ++ "%)").

(** Line 104. *)
Definition numeric_unit (c : option Entry) (bunit cunit : string) : result string :=
  match c with
  | Some (JDict cd) =>
      u <- attr_get (get_or cd "primaryMetric" (JDict [])) "scoreUnit"
             (JStr (str_or bunit cunit)) ;;
      OK (py_str u)
  | _ => OK (str_or bunit cunit)
  end.

(** Line 109. *)
Definition params_str (params : list (string * atom)) : string :=
  match params with
  | [] => EM_DASH
  | _ => String.concat ", " (map (fun kv => fst kv ++ "=" ++ str_atom (snd kv)) params)
  end.

(** The body of the loop over [keys] (lines 89 to 109). *)
Definition row (base cur : LoadedSet) (key : Key) : result Row :=
  let '(bench, params) := key in
  let b := ls_get base (bench, params) in
  let c := ls_get cur (bench, params) in
  ' (bscore_s, bunit) <- _score_and_unit b ;;
  ' (cscore_s, cunit) <- _score_and_unit c ;;
  bscore <- _numeric_score b ;;
  cscore <- _numeric_score c ;;
  ' (delta_s, unit) <-
    match bscore, cscore with
    | Some bs, Some cs =>
        delta_s <- delta_str bs cs ;;
        unit <- numeric_unit c bunit cunit ;;
        OK (delta_s, unit)
    | _, _ => OK ("n/a", str_or cunit (str_or bunit ""))
    end ;;
  OK {| r_bench := str_atom bench; r_params := params_str params;
        r_base := bscore_s; r_cur := cscore_s; r_delta := delta_s; r_unit := unit |}.

(** Line 110. *)
Definition row_line (r : Row) : string :=
  "| `" ++ r_bench r ++ "` | " ++ r_params r ++ " | " ++ r_base r ++ " | "
  ++ r_cur r ++ " | " ++ r_delta r ++ " | " ++ r_unit r ++ " |".

Definition table_head (title : string) : list string :=
  ["### " ++ title;
   "";
   "| Benchmark | Params | Baseline | PR | Δ (PR/Base) | Unit |";
   "|---|---|---:|---:|---:|---|"].

Definition table_foot (note : option string) : list string :=
  ([""] ++ match note with
          | Some n => if (n =? "") then [] else [n; ""]
          | None => []
          end)%list.

Definition newline : string := String (ascii_of_N 10) "".

(** Line 80: the keys of either set, as the set of them is iterated
    ([set_iter]), then sorted. *)
Definition sorted_keys (set_iter : list Key -> list Key) (base cur : LoadedSet)
  : result (list Key) :=
  sorted key_lt (set_iter (set_union (set_of (keys base)) (set_of (keys cur)))).

Definition compare_to_markdown (set_iter : list Key -> list Key)
  (base cur : LoadedSet) (title : string) (note : option string) : result string :=
  keys <- sorted_keys set_iter base cur ;;
  rows <- mapM (row base cur) keys ;;
  OK (String.concat newline
        (table_head title ++ map row_line rows ++ table_foot note)%list).

(** *** [main] *)

(** What [parse_args] returns. *)
Record Namespace : Type := {
  baseline : string;
  current : string;
  title : string;
  note : option string
}.

Definition is_empty (d : LoadedSet) : bool :=
  match d with
  | [] => true
  | _ => false
  end.

(** Lines 136 to 146: [main] once [parse_args] has returned [args].  The
    parser of line 134 is the library's ([argparse]) and is not embedded: on
    a command line it refuses, or that asks for help, it ends the process
    itself, before any source is read. *)
Definition main (fs : string -> read_outcome) (set_iter : list Key -> list Key)
  (args : Namespace) (w : world) : result Z * world :=
  match load fs (baseline args) w with
  | (Raise e, w1) => (Raise e, w1)
  | (OK base, w1) =>
      match load fs (current args) w1 with
      | (Raise e, w2) => (Raise e, w2)
      | (OK cur, w2) =>
          if is_empty base && is_empty cur
          then (OK 1%Z,
                eprint "error: neither baseline nor current results could be loaded." w2)
          else
            match compare_to_markdown set_iter base cur (title args) (note args) with
            | Raise e => (Raise e, w2)
            | OK md => (OK 0%Z, print md w2)
            end
      end
  end.

(** The exit status of the process, [sys.exit(main(sys.argv[1:]))]: the
    value [main] returns, the code of a [SystemExit], and 1 after any other
    exception, which is not caught. *)
Definition exit_status (r : result Z) : Z :=
  match r with
  | OK n => n
  | Raise (SystemExit c) => c
  | Raise _ => 1%Z
  end.

(** * Vocabulary of the properties *)

Definition is_lt (c : comparison) : bool :=
  match c with
  | Lt => true
  | _ => false
  end.

(** Lexicographic combination of two comparisons. *)
Definition lex (c c' : comparison) : comparison :=
  match c with
  | Eq => c'
  | _ => c
  end.

Definition pair_compare {A B : Type} (ca : A -> A -> comparison)
  (cb : B -> B -> comparison) (x y : A * B) : comparison :=
  lex (ca (fst x) (fst y)) (cb (snd x) (snd y)).

Fixpoint seq_compare {A : Type} (cmp : A -> A -> comparison) (l1 l2 : list A)
  : comparison :=
  match l1, l2 with
  | [], [] => Eq
  | [], _ :: _ => Lt
  | _ :: _, [] => Gt
  | x :: l1', y :: l2' => lex (cmp x y) (seq_compare cmp l1' l2')
  end.

(** A comparison function that decides a strict total order. *)
Record order_laws {A : Type} (cmp : A -> A -> comparison) : Prop := {
  ol_refl : forall x, cmp x x = Eq;
  ol_eq : forall x y, cmp x y = Eq -> x = y;
  ol_anti : forall x y, cmp y x = CompOpp (cmp x y);
  ol_trans : forall x y z, cmp x y = Lt -> cmp y z = Lt -> cmp x z = Lt
}.

(** The keys JMH files give: the benchmark and every parameter value are
    strings. *)
Definition is_str (a : atom) : bool :=
  match a with
  | PyStr _ => true
  | _ => false
  end.

Definition is_str_key (k : Key) : bool :=
  is_str (fst k) && forallb (fun kv => is_str (snd kv)) (snd k).

Definition str_keyed (d : LoadedSet) : bool := forallb is_str_key (keys d).

Definition text (a : atom) : string :=
  match a with
  | PyStr s => s
  | _ => ""
  end.

Definition skey : Type := (string * list (string * string))%type.

Definition skey_of (k : Key) : skey :=
  (text (fst k), map (fun kv => (fst kv, text (snd kv))) (snd k)).

(** The order of the data model: lexicographic on the name, then on the
    sequence of (parameter name, value) pairs. *)
Definition skey_compare : skey -> skey -> comparison :=
  pair_compare String.compare
    (seq_compare (pair_compare String.compare String.compare)).

Definition key_compare (k1 k2 : Key) : comparison :=
  skey_compare (skey_of k1) (skey_of k2).

(** [k1 < k2] holds in Python. *)
Definition key_before (k1 k2 : Key) : Prop := key_lt k1 k2 = OK true.

(** An iteration order of sets: some rearrangement of the items. *)
Definition iteration_order (set_iter : list Key -> list Key) : Prop :=
  forall s, Permutation (set_iter s) s.

Definition finite (x : float) : bool :=
  match Prim2SF x with
  | S754_zero _ | S754_finite _ _ _ => true
  | _ => false
  end.

Definition w0 : world := {| stdout := []; stderr := [] |}.

(** The entries JMH writes: the benchmark, when there is one, and every
    parameter value are strings. *)
Definition is_jstr (x : json) : bool :=
  match x with
  | JAtom (PyStr _) => true
  | _ => false
  end.

Definition jmh_entry (e : json) : bool :=
  match e with
  | JDict d =>
      is_jstr (get_or d "benchmark" (JStr "")) &&
      forallb (fun kv => is_jstr (snd kv)) (entry_params d)
  | _ => true
  end.

(** The primary metric of an entry and what it declares. *)
Definition metric (e : option Entry) : list (string * json) :=
  match e with
  | Some (JDict d) => as_dict (get_or d "primaryMetric" (JDict []))
  | _ => []
  end.

Definition has_numeric_score (e : option Entry) : bool :=
  match e with
  | Some (JDict d) =>
      truthy (JDict d) && is_essential_num (get_or (metric e) "score" JNull)
  | _ => false
  end.

Definition declares_unit (e : option Entry) : bool :=
  match dict_get (metric e) "scoreUnit" with
  | Some _ => true
  | None => false
  end.

Definition negative (x : float) : bool :=
  match Prim2SF x with
  | S754_zero s | S754_infinity s | S754_finite s _ _ => s
  | S754_nan => false
  end.

(** [N / 10^p] is the multiple of [10^-p] nearest to the magnitude of [x],
    the even one of the two when [x] lies halfway. *)
Definition nearest_decimal (p : nat) (x : float) (N : Z) : Prop :=
  match Prim2SF x with
  | S754_zero _ => N = 0%Z
  | S754_finite _ m e =>
      let '(n, d) := dyadic m e in
      (0 <= N)%Z /\
      (2 * Z.abs (N * d - n * 10 ^ Z.of_nat p) <= d)%Z /\
      ((2 * Z.abs (N * d - n * 10 ^ Z.of_nat p) = d)%Z -> Z.even N = true)
  | _ => False
  end.

(** ** Example data *)

(** A JMH entry. *)
Definition entry (bench : json) (params : list (string * json)) (score unit : json)
  : list (string * json) :=
  [("benchmark", bench); ("params", JDict params);
   ("primaryMetric", JDict [("score", score); ("scoreUnit", unit)])].

(** The round trip example: benchmark A with n = 1, 100 then 110 ops/s, and
    a benchmark B that only the baseline has. *)
Definition ex_A_base : list (string * json) :=
  entry (JStr "A") [("n", JStr "1")] (JFloat 100) (JStr "ops/s").
Definition ex_A_cur : list (string * json) :=
  entry (JStr "A") [("n", JStr "1")] (JFloat 110) (JStr "ops/s").
Definition ex_B : list (string * json) :=
  entry (JStr "B") [] (JInt 3) (JStr "s").

Definition key_A : Key := (PyStr "A", [("n", PyStr "1")]).
Definition key_B : Key := (PyStr "B", []).
Definition key_C : Key := (PyStr "B", [("n", PyStr "1")]).

Definition ex_base : LoadedSet := [(key_A, JDict ex_A_base); (key_B, JDict ex_B)].
Definition ex_cur : LoadedSet := [(key_A, JDict ex_A_cur)].

(** Two entries of one benchmark whose parameter n is a number in one and a
    string in the other. *)
Definition ex_int : list (string * json) :=
  entry (JStr "A") [("n", JInt 1)] (JFloat 100) (JStr "ops/s").
Definition ex_str : list (string * json) :=
  entry (JStr "A") [("n", JStr "x")] (JFloat 110) (JStr "ops/s").

Definition key_int : Key := (PyStr "A", [("n", PyInt 1)]).
Definition key_str : Key := (PyStr "A", [("n", PyStr "x")]).

(** Two entries whose parameter n is NaN in one and 1.0 in the other. *)
Definition ex_nan : list (string * json) :=
  entry (JStr "A") [("n", JFloat nan)] (JFloat 100) (JStr "ops/s").
Definition ex_one : list (string * json) :=
  entry (JStr "A") [("n", JFloat 1)] (JFloat 110) (JStr "ops/s").

Definition key_nan : Key := (PyStr "A", [("n", PyFloat nan)]).
Definition key_one : Key := (PyStr "A", [("n", PyFloat 1)]).

(** Benchmark A with a baseline score of zero. *)
Definition ex_zero : list (string * json) :=
  entry (JStr "A") [("n", JStr "1")] (JInt 0) (JStr "ops/s").

(** An entry whose score is [true], and its parts. *)
Definition ex_true_metric : list (string * json) :=
  [("score", JBool true); ("scoreUnit", JStr "ops/s")].
Definition ex_true : list (string * json) :=
  [("benchmark", JStr "A"); ("params", JDict [("n", JStr "1")]);
   ("primaryMetric", JDict ex_true_metric)].

(** An entry whose primary metric is the number 5, one whose params are the
    number 5, and a baseline file that holds the first. *)
Definition ex_bad_metric : list (string * json) :=
  [("benchmark", JStr "A"); ("primaryMetric", JInt 5)].
Definition ex_bad_params : list (string * json) :=
  [("benchmark", JStr "A"); ("params", JInt 5)].

Definition fs_bad_metric (path : string) : read_outcome :=
  if (path =? "base.json") then Parsed (JList [JDict ex_bad_metric]) else FileNotFound.

Definition ex_args : Namespace :=
  {| baseline := "base.json"; current := "pr.json"; title := "T"; note := None |}.

(** The files of the round trip example, a baseline that cannot be read,
    and a baseline that holds the two entries with n = 1 and n = "x". *)
Definition fs_ex (path : string) : read_outcome :=
  if (path =? "base.json") then Parsed (JList [JDict ex_A_base; JDict ex_B])
  else if (path =? "pr.json") then Parsed (JList [JDict ex_A_cur])
  else FileNotFound.

Definition fs_denied (path : string) : read_outcome :=
  if (path =? "base.json") then ReadFails PermissionError else FileNotFound.

Definition fs_mixed (path : string) : read_outcome :=
  if (path =? "base.json") then Parsed (JList [JDict ex_int; JDict ex_str])
  else FileNotFound.

Definition no_data_message : string :=
  "error: neither baseline nor current results could be loaded.".

(** Benchmark A at 95 ops/s, and with a score that overflowed to infinity
    (the JSON number 1e999). *)
Definition ex_95 : list (string * json) :=
  entry (JStr "A") [("n", JStr "1")] (JFloat 95) (JStr "ops/s").
Definition ex_inf : list (string * json) :=
  entry (JStr "A") [("n", JStr "1")] (JFloat infinity) (JStr "ops/s").

(** A baseline in ops/s, and two current entries that both declare the
    empty unit, one with a numeric score and one with a text for a score. *)
Definition ex_unit_base : list (string * json) :=
  entry (JStr "A") [("n", JStr "1")] (JInt 1) (JStr "ops/s").
Definition ex_unit_num : list (string * json) :=
  entry (JStr "A") [("n", JStr "1")] (JInt 2) (JStr "").
Definition ex_unit_txt : list (string * json) :=
  entry (JStr "A") [("n", JStr "1")] (JStr "x") (JStr "").

(** ** Vocabulary of the further properties *)

Definition is_record (e : json) : bool :=
  match e with
  | JDict _ => true
  | _ => false
  end.

Definition is_atom (x : json) : bool :=
  match x with
  | JAtom _ => true
  | _ => false
  end.

(** An element of the file whose key can be hashed: it is no dict, or its
    benchmark and its parameter values are neither lists nor dicts. *)
Definition hashable_entry (e : json) : bool :=
  match e with
  | JDict d =>
      is_atom (get_or d "benchmark" (JStr "")) &&
      forallb (fun kv => is_atom (snd kv)) (entry_params d)
  | _ => true
  end.

(** The last record of [data] whose key is [k]. *)
Fixpoint last_record (data : list json) (k : Key) : option Entry :=
  match data with
  | [] => None
  | e :: data' =>
      match last_record data' k with
      | Some e' => Some e'
      | None =>
          match e with
          | JDict d =>
              match entry_key d with
              | OK k' => if key_same k' k then Some e else None
              | Raise _ => None
              end
          | _ => None
          end
      end
  end.

(** No two entries of a dict have the same key. *)
Definition distinct_keys (d : LoadedSet) : Prop :=
  ForallOrdPairs (fun a b => key_same (fst a) (fst b) = false) d.

(** An integer that [float] converts. *)
Definition fits_float (n : Z) : bool :=
  match float_of_Z n with
  | OK _ => true
  | Raise _ => false
  end.

(** An entry whose score can be shown: there is none, or it is empty or no
    dict, or its primary metric (when it has one) is a dict whose score, if
    an integer, fits a float. *)
Definition well_shaped (e : option Entry) : bool :=
  match e with
  | Some (JDict d) =>
      if truthy (JDict d)
      then match get_or d "primaryMetric" (JDict []) with
           | JDict md =>
               match get_or md "score" JNull with
               | JAtom (PyInt n) => fits_float n
               | _ => true
               end
           | _ => false
           end
      else true
  | _ => true
  end.

Definition well_shaped_set (d : LoadedSet) : bool :=
  forallb (fun ke => well_shaped (Some (snd ke))) d.

(** A source that is absent or parses, with keys made of strings and
    well-shaped metrics when it is a list. *)
Definition jmh_file (o : read_outcome) : bool :=
  match o with
  | FileNotFound => true
  | Parsed (JList data) =>
      forallb jmh_entry data && forallb (fun e => well_shaped (Some e)) data
  | Parsed _ => true
  | _ => false
  end.

(** A file in which benchmark A comes twice, and the entry of benchmark A
    with two parameters, in the two orders. *)
Definition ex_twice : list json := [JDict ex_A_base; JDict ex_B; JDict ex_A_cur].

Definition ex_pq : list (string * json) :=
  entry (JStr "A") [("p", JStr "1"); ("q", JStr "2")] (JFloat 100) (JStr "ops/s").
Definition ex_qp : list (string * json) :=
  entry (JStr "A") [("q", JStr "2"); ("p", JStr "1")] (JFloat 100) (JStr "ops/s").

(** * Properties *)

(** ** The result monad *)

Lemma bind_OK_inv {A B : Type} (m : result A) (k : A -> result B) (b : B) :
  bind m k = OK b -> exists a, m = OK a /\ k a = OK b.
Proof.
  destruct m as [a|e]; simpl; intros H; [eauto | discriminate].
Qed.

Lemma mapM_Forall2 {A B : Type} (f : A -> result B) (l : list A) :
  forall ys, mapM f l = OK ys -> Forall2 (fun x y => f x = OK y) l ys.
Proof.
  induction l as [|x l IH]; simpl; intros ys H.
  - injection H as <-. constructor.
  - apply bind_OK_inv in H as (y & Hy & H).
    apply bind_OK_inv in H as (ys' & Hys & H).
    injection H as <-. constructor; auto.
Qed.

(** ** Comparison functions *)

Lemma lex_Eq (c c' : comparison) : lex c c' = Eq -> c = Eq /\ c' = Eq.
Proof. destruct c; simpl; intros H; try discriminate; auto. Qed.

Lemma lex_Lt (c c' : comparison) :
  lex c c' = Lt <-> c = Lt \/ (c = Eq /\ c' = Lt).
Proof.
  destruct c; simpl; split; intros H; auto;
    try (destruct H as [H|[H _]]; congruence); try discriminate.
  destruct H as [H|[_ H]]; [discriminate | exact H].
Qed.

Lemma lex_opp (c c' : comparison) : CompOpp (lex c c') = lex (CompOpp c) (CompOpp c').
Proof. destruct c; reflexivity. Qed.

Lemma ascii_compare_refl (a : ascii) : Ascii.compare a a = Eq.
Proof. unfold Ascii.compare. apply N.compare_refl. Qed.

Lemma ascii_compare_trans (a b c : ascii) :
  Ascii.compare a b = Lt -> Ascii.compare b c = Lt -> Ascii.compare a c = Lt.
Proof.
  unfold Ascii.compare. rewrite !N.compare_lt_iff. apply N.lt_trans.
Qed.

Lemma string_compare_refl (s : string) : String.compare s s = Eq.
Proof.
  induction s as [|a s IH]; simpl; [reflexivity|].
  now rewrite ascii_compare_refl.
Qed.

Lemma string_compare_trans (s t u : string) :
  String.compare s t = Lt -> String.compare t u = Lt -> String.compare s u = Lt.
Proof.
  revert t u. induction s as [|a s IH]; intros [|b t] [|c u]; simpl;
    try discriminate; auto.
  destruct (Ascii.compare a b) eqn:Hab; try discriminate;
    destruct (Ascii.compare b c) eqn:Hbc; try discriminate; intros H1 H2.
  - apply Ascii.compare_eq_iff in Hab, Hbc. subst.
    rewrite ascii_compare_refl. eauto.
  - apply Ascii.compare_eq_iff in Hab. subst. now rewrite Hbc.
  - apply Ascii.compare_eq_iff in Hbc. subst. now rewrite Hab.
  - now rewrite (ascii_compare_trans _ _ _ Hab Hbc).
Qed.

Lemma string_order : order_laws String.compare.
Proof.
  split.
  - apply string_compare_refl.
  - apply String.compare_eq_iff.
  - intros x y. apply String.compare_antisym.
  - apply string_compare_trans.
Qed.

Lemma pair_order {A B : Type} (ca : A -> A -> comparison) (cb : B -> B -> comparison) :
  order_laws ca -> order_laws cb -> order_laws (pair_compare ca cb).
Proof.
  intros [ra ea aa ta] [rb eb ab tb]. unfold pair_compare. split.
  - intros [x1 x2]. simpl. now rewrite ra, rb.
  - intros [x1 x2] [y1 y2] H. simpl in H. apply lex_Eq in H as [H1 H2].
    f_equal; auto.
  - intros [x1 x2] [y1 y2]. simpl. now rewrite lex_opp, <- aa, <- ab.
  - intros [x1 x2] [y1 y2] [z1 z2]. simpl. rewrite !lex_Lt.
    intros [H1|[H1 H1']] [H2|[H2 H2']].
    + left. eauto.
    + apply ea in H2. subst. auto.
    + apply ea in H1. subst. auto.
    + apply ea in H1, H2. subst. right. split; [apply ra | eauto].
Qed.

Lemma seq_order {A : Type} (cmp : A -> A -> comparison) :
  order_laws cmp -> order_laws (seq_compare cmp).
Proof.
  intros [r e a t]. split.
  - intros l. induction l as [|x l IH]; simpl; [reflexivity|]. now rewrite r.
  - intros l. induction l as [|x l IH]; intros [|y l'] H; simpl in H;
      try discriminate; [reflexivity|].
    apply lex_Eq in H as [H1 H2]. f_equal; auto.
  - intros l. induction l as [|x l IH]; intros [|y l']; simpl; try reflexivity.
    now rewrite lex_opp, <- a, <- IH.
  - intros l. induction l as [|x l IH]; intros [|y l1] [|z l2]; simpl;
      try discriminate; auto.
    rewrite !lex_Lt. intros [H1|[H1 H1']] [H2|[H2 H2']].
    + left. eauto.
    + apply e in H2. subst. auto.
    + apply e in H1. subst. auto.
    + apply e in H1, H2. subst. right. split; [apply r | eauto].
Qed.

Lemma skey_order : order_laws skey_compare.
Proof.
  unfold skey_compare.
  apply pair_order; [apply string_order|].
  apply seq_order, pair_order; apply string_order.
Qed.

(** ** Keys made of strings *)

Lemma lex_neq (c c' : comparison) : c <> Eq -> lex c c' = c.
Proof. destruct c; simpl; congruence. Qed.

Lemma ltb_is_lt (s t : string) : String.ltb s t = is_lt (String.compare s t).
Proof. unfold String.ltb. now destruct (String.compare s t). Qed.

Lemma compare_neq (s t : string) : s <> t -> String.compare s t <> Eq.
Proof. intros H E. apply H, String.compare_eq_iff, E. Qed.

Lemma text_inj (a b : atom) :
  is_str a = true -> is_str b = true -> text a = text b -> a = b.
Proof.
  destruct a, b; simpl; try discriminate. now intros _ _ ->.
Qed.

Lemma str_same (a b : atom) :
  is_str a = true -> is_str b = true -> py_same a b = (text a =? text b).
Proof. destruct a, b; simpl; try discriminate; reflexivity. Qed.

Lemma str_lt (a b : atom) :
  is_str a = true -> is_str b = true ->
  py_lt a b = OK (is_lt (String.compare (text a) (text b))).
Proof.
  destruct a, b; simpl; try discriminate. intros _ _. now rewrite ltb_is_lt.
Qed.

Lemma str_params_cons (x : string * atom) (p : list (string * atom)) :
  forallb (fun kv => is_str (snd kv)) (x :: p) = true ->
  is_str (snd x) = true /\ forallb (fun kv => is_str (snd kv)) p = true.
Proof. simpl. apply andb_true_iff. Qed.

Lemma params_lt_compare (p q : list (string * atom)) :
  forallb (fun kv => is_str (snd kv)) p = true ->
  forallb (fun kv => is_str (snd kv)) q = true ->
  params_lt p q =
  OK (is_lt (seq_compare (pair_compare String.compare String.compare)
               (map (fun kv => (fst kv, text (snd kv))) p)
               (map (fun kv => (fst kv, text (snd kv))) q))).
Proof.
  revert q. induction p as [|[n1 a1] p IH]; intros [|[n2 a2] q] Hp Hq;
    try reflexivity.
  apply str_params_cons in Hp as [Ha1 Hp]. apply str_params_cons in Hq as [Ha2 Hq].
  simpl in Ha1, Ha2. cbn [params_lt map seq_compare fst snd].
  unfold pair_same, pair_lt, pair_compare. cbn [fst snd].
  rewrite (str_same _ _ Ha1 Ha2), (str_lt _ _ Ha1 Ha2).
  destruct (String.eqb_spec n1 n2) as [->|Hn].
  - destruct (String.eqb_spec (text a1) (text a2)) as [E|Hv]; cbn [andb].
    + rewrite E, !string_compare_refl. simpl. auto.
    + rewrite string_compare_refl. cbn [lex].
      now rewrite (lex_neq _ _ (compare_neq _ _ Hv)).
  - cbn [andb]. rewrite ltb_is_lt.
    now rewrite !(lex_neq _ _ (compare_neq _ _ Hn)).
Qed.

(** On keys made of strings Python's [<] is the lexicographic order of the
    data model. *)
Lemma key_lt_compare (k1 k2 : Key) :
  is_str_key k1 = true -> is_str_key k2 = true ->
  key_lt k1 k2 = OK (is_lt (key_compare k1 k2)).
Proof.
  destruct k1 as [b1 p1], k2 as [b2 p2]. unfold is_str_key. cbn [fst snd].
  rewrite !andb_true_iff. intros [Hb1 Hp1] [Hb2 Hp2].
  unfold key_lt, key_compare, skey_compare, skey_of, pair_compare. cbn [fst snd].
  rewrite (str_same _ _ Hb1 Hb2), (str_lt _ _ Hb1 Hb2).
  destruct (String.eqb_spec (text b1) (text b2)) as [E|Hn].
  - rewrite E, string_compare_refl. cbn [lex]. now apply params_lt_compare.
  - now rewrite (lex_neq _ _ (compare_neq _ _ Hn)).
Qed.

Lemma str_params_inj (p q : list (string * atom)) :
  forallb (fun kv => is_str (snd kv)) p = true ->
  forallb (fun kv => is_str (snd kv)) q = true ->
  map (fun kv => (fst kv, text (snd kv))) p = map (fun kv => (fst kv, text (snd kv))) q ->
  p = q.
Proof.
  revert q. induction p as [|[n1 a1] p IH]; intros [|[n2 a2] q] Hp Hq E;
    try discriminate; [reflexivity|].
  apply str_params_cons in Hp as [Ha1 Hp]. apply str_params_cons in Hq as [Ha2 Hq].
  simpl in *. injection E as -> Ha E.
  f_equal; [f_equal; now apply text_inj | now apply IH].
Qed.

Lemma skey_of_inj (k1 k2 : Key) :
  is_str_key k1 = true -> is_str_key k2 = true -> skey_of k1 = skey_of k2 -> k1 = k2.
Proof.
  destruct k1 as [b1 p1], k2 as [b2 p2]. unfold is_str_key, skey_of. cbn [fst snd].
  rewrite !andb_true_iff. intros [Hb1 Hp1] [Hb2 Hp2] E. injection E as Eb Ep.
  f_equal; [now apply text_inj | now apply str_params_inj].
Qed.

Lemma key_compare_eq (k1 k2 : Key) :
  is_str_key k1 = true -> is_str_key k2 = true -> key_compare k1 k2 = Eq -> k1 = k2.
Proof.
  intros H1 H2 E. apply skey_of_inj; auto. apply (ol_eq _ skey_order), E.
Qed.

Lemma key_compare_refl (k : Key) : key_compare k k = Eq.
Proof. apply (ol_refl _ skey_order). Qed.

Lemma key_compare_anti (k1 k2 : Key) : key_compare k2 k1 = CompOpp (key_compare k1 k2).
Proof. apply (ol_anti _ skey_order). Qed.

Lemma key_compare_trans (k1 k2 k3 : Key) :
  key_compare k1 k2 = Lt -> key_compare k2 k3 = Lt -> key_compare k1 k3 = Lt.
Proof. apply (ol_trans _ skey_order). Qed.

Lemma params_same_compare (p q : list (string * atom)) :
  forallb (fun kv => is_str (snd kv)) p = true ->
  forallb (fun kv => is_str (snd kv)) q = true ->
  params_same p q = true <-> p = q.
Proof.
  revert q. induction p as [|[n1 a1] p IH]; intros [|[n2 a2] q] Hp Hq; simpl;
    try (split; [discriminate | intros E; discriminate E]); [tauto|].
  apply str_params_cons in Hp as [Ha1 Hp]. apply str_params_cons in Hq as [Ha2 Hq].
  simpl in Ha1, Ha2. unfold pair_same. cbn [fst snd].
  rewrite (str_same _ _ Ha1 Ha2), !andb_true_iff, !String.eqb_eq, (IH q Hp Hq).
  split.
  - intros [[-> E] ->]. f_equal. f_equal. now apply text_inj.
  - intros E. injection E as -> -> ->. auto.
Qed.

(** On keys made of strings the equality of dicts and sets is equality. *)
Lemma key_same_eq (k1 k2 : Key) :
  is_str_key k1 = true -> is_str_key k2 = true ->
  key_same k1 k2 = true <-> k1 = k2.
Proof.
  destruct k1 as [b1 p1], k2 as [b2 p2]. unfold is_str_key, key_same. cbn [fst snd].
  rewrite !andb_true_iff. intros [Hb1 Hp1] [Hb2 Hp2].
  rewrite (str_same _ _ Hb1 Hb2), String.eqb_eq, (params_same_compare _ _ Hp1 Hp2).
  split.
  - intros [E ->]. f_equal. now apply text_inj.
  - intros E. injection E as -> ->. auto.
Qed.

(** ** [sorted] where [<] decides a strict total order *)

Section SortSpec.
Context {A : Type} (lt : A -> A -> result bool).
Context (P : A -> Prop) (cmp : A -> A -> comparison).
Hypothesis lt_cmp : forall x y, P x -> P y -> lt x y = OK (is_lt (cmp x y)).
Hypothesis cmp_eq : forall x y, P x -> P y -> cmp x y = Eq -> x = y.
Hypothesis cmp_anti : forall x y, cmp y x = CompOpp (cmp x y).
Hypothesis cmp_trans : forall x y z, cmp x y = Lt -> cmp y z = Lt -> cmp x z = Lt.

Lemma insert_spec (x : A) (l : list A) :
  P x -> Forall P l -> ~ In x l ->
  StronglySorted (fun a b => cmp a b = Lt) l ->
  exists l', insert lt x l = OK l' /\ Permutation (x :: l) l' /\
             StronglySorted (fun a b => cmp a b = Lt) l'.
Proof.
  intros Px. induction l as [|y l IH]; intros Pl Hx Hs.
  - exists [x]. simpl. repeat split; auto. constructor; constructor.
  - inversion Pl as [|? ? Py Pl']; subst. inversion Hs as [|? ? Hs' Hy]; subst.
    simpl. rewrite (lt_cmp y x Py Px).
    destruct (cmp y x) eqn:E; simpl.
    + exfalso. apply Hx. left. now apply cmp_eq.
    + destruct IH as (r & Hr & Hp & Hsr); auto.
      { intros H. apply Hx. now right. }
      rewrite Hr. simpl. exists (y :: r). repeat split.
      * rewrite perm_swap. now constructor.
      * constructor; auto.
        eapply Permutation_Forall; [exact Hp|]. constructor; auto.
    + exists (x :: y :: l). repeat split; auto.
      assert (Hxy : cmp x y = Lt) by (rewrite cmp_anti, E; reflexivity).
      constructor; auto. constructor; auto.
      eapply Forall_impl; [|exact Hy]. intros z Hz. simpl in Hz. eauto.
Qed.

Lemma sorted_spec (l : list A) :
  Forall P l -> NoDup l ->
  exists l', sorted lt l = OK l' /\ Permutation l l' /\
             StronglySorted (fun a b => cmp a b = Lt) l'.
Proof.
  induction l as [|x l IH]; intros Pl Hnd.
  - exists []. simpl. repeat split; auto. constructor.
  - inversion Pl as [|? ? Px Pl']; subst. inversion Hnd as [|? ? Hx Hnd']; subst.
    destruct (IH Pl' Hnd') as (s & Hs & Hp & Hss).
    destruct (insert_spec x s) as (r & Hr & Hpr & Hsr); auto.
    + eapply Permutation_Forall; eauto.
    + intros H. apply Hx. eapply Permutation_in; [symmetry; exact Hp | exact H].
    + exists r. simpl. rewrite Hs. simpl. repeat split; auto.
      rewrite <- Hpr. now constructor.
Qed.

Lemma strictly_sorted_unique (l1 l2 : list A) :
  StronglySorted (fun a b => cmp a b = Lt) l1 ->
  StronglySorted (fun a b => cmp a b = Lt) l2 ->
  Permutation l1 l2 -> l1 = l2.
Proof.
  revert l2. induction l1 as [|a l1 IH]; intros l2 H1 H2 Hp.
  - apply Permutation_nil in Hp. now subst.
  - destruct l2 as [|b l2].
    { symmetry in Hp. apply Permutation_nil in Hp. discriminate. }
    inversion H1 as [|? ? H1' Ha]; subst. inversion H2 as [|? ? H2' Hb]; subst.
    assert (E : a = b).
    { assert (Hin1 : In a (b :: l2)) by (eapply Permutation_in; [exact Hp | now left]).
      assert (Hin2 : In b (a :: l1))
        by (eapply Permutation_in; [symmetry; exact Hp | now left]).
      destruct Hin1 as [->|Hin1]; [reflexivity|].
      destruct Hin2 as [->|Hin2]; [reflexivity|].
      rewrite Forall_forall in Ha, Hb.
      specialize (Ha _ Hin2). specialize (Hb _ Hin1).
      rewrite cmp_anti, Ha in Hb. discriminate. }
    subst. f_equal. apply IH; auto. eapply Permutation_cons_inv; eauto.
Qed.

Lemma sorted_permutation (l1 l2 : list A) :
  Forall P l1 -> NoDup l1 -> Permutation l1 l2 -> sorted lt l1 = sorted lt l2.
Proof.
  intros Pl Hnd Hp.
  destruct (sorted_spec l1 Pl Hnd) as (s1 & -> & Hp1 & Hs1).
  destruct (sorted_spec l2) as (s2 & -> & Hp2 & Hs2).
  - eapply Permutation_Forall; eauto.
  - eapply Permutation_NoDup; eauto.
  - f_equal. apply strictly_sorted_unique; auto.
    now rewrite <- Hp1, <- Hp2.
Qed.

End SortSpec.

(** ** Sets of keys made of strings *)

Lemma existsb_key_same (k : Key) (s : list Key) :
  is_str_key k = true -> Forall (fun x => is_str_key x = true) s ->
  existsb (key_same k) s = true <-> In k s.
Proof.
  intros Hk Hs. rewrite existsb_exists. rewrite Forall_forall in Hs. split.
  - intros (x & Hx & E). apply key_same_eq in E; auto. now subst.
  - intros H. exists k. split; auto. apply key_same_eq; auto.
Qed.

Lemma set_add_spec (s : list Key) (k : Key) :
  Forall (fun x => is_str_key x = true) s -> is_str_key k = true -> NoDup s ->
  NoDup (set_add s k) /\ Forall (fun x => is_str_key x = true) (set_add s k) /\
  forall x, In x (set_add s k) <-> In x s \/ x = k.
Proof.
  intros Hs Hk Hnd. unfold set_add.
  destruct (existsb (key_same k) s) eqn:E.
  - apply existsb_key_same in E; auto. repeat split; auto.
    intros [H| ->]; auto.
  - assert (Hn : ~ In k s).
    { intros H. apply existsb_key_same in H; auto. congruence. }
    repeat split.
    + apply NoDup_app; auto.
      * constructor; [intros [] | constructor].
      * intros x Hx [<-|[]]. auto.
    + apply Forall_app. split; auto.
    + rewrite in_app_iff. simpl. intuition.
    + rewrite in_app_iff. simpl. intuition.
Qed.

Lemma fold_set_add_spec (l s : list Key) :
  Forall (fun x => is_str_key x = true) s ->
  Forall (fun x => is_str_key x = true) l -> NoDup s ->
  NoDup (fold_left set_add l s) /\
  Forall (fun x => is_str_key x = true) (fold_left set_add l s) /\
  forall x, In x (fold_left set_add l s) <-> In x s \/ In x l.
Proof.
  revert s. induction l as [|k l IH]; intros s Hs Hl Hnd; simpl.
  - repeat split; auto. intros [H|[]]; auto.
  - inversion Hl as [|? ? Hk Hl']; subst.
    destruct (set_add_spec s k Hs Hk Hnd) as (Hnd' & Hs' & Hin).
    destruct (IH _ Hs' Hl' Hnd') as (Hnd'' & Hs'' & Hin'').
    repeat split; auto.
    + intros H. apply Hin'' in H as [H|H]; auto. apply Hin in H as [H| ->]; auto.
    + intros [H|[<-|H]]; apply Hin''; auto; left; apply Hin; auto.
Qed.

(** The keys of either set, each once ([set(base.keys()) | set(cur.keys())]). *)
Lemma key_union_spec (base cur : LoadedSet) :
  str_keyed base = true -> str_keyed cur = true ->
  let u := set_union (set_of (keys base)) (set_of (keys cur)) in
  NoDup u /\ Forall (fun x => is_str_key x = true) u /\
  forall k, In k u <-> In k (keys base) \/ In k (keys cur).
Proof.
  unfold str_keyed. rewrite !forallb_forall, <- !Forall_forall. intros Hb Hc.
  destruct (fold_set_add_spec (keys base) [] (Forall_nil _) Hb (NoDup_nil _))
    as (N1 & S1 & I1).
  destruct (fold_set_add_spec (keys cur) [] (Forall_nil _) Hc (NoDup_nil _))
    as (N2 & S2 & I2).
  fold (set_of (keys base)) in N1, S1, I1. fold (set_of (keys cur)) in N2, S2, I2.
  destruct (fold_set_add_spec (set_of (keys cur)) (set_of (keys base)) S1 S2 N1)
    as (N & S & I).
  cbv zeta. unfold set_union. repeat split; auto.
  - intros H. apply I in H as [H|H]; [apply I1 in H | apply I2 in H];
      simpl in H; tauto.
  - intros [H|H]; apply I; [left; apply I1 | right; apply I2]; auto.
Qed.

(** ** What the helpers return and raise *)

Lemma bind_Raise_inv {A B : Type} (m : result A) (k : A -> result B) (ex : exn) :
  bind m k = Raise ex -> m = Raise ex \/ exists a, m = OK a /\ k a = Raise ex.
Proof.
  destruct m as [a|e]; simpl; intros H; [right; eauto | left; congruence].
Qed.

Lemma float_of_Z_raises (n : Z) (ex : exn) :
  float_of_Z n = Raise ex -> ex = OverflowError.
Proof.
  unfold float_of_Z. destruct (binary_normalize prec emax n 0 false);
    intros H; try discriminate. now injection H.
Qed.

Lemma to_float_raises (s : json) (ex : exn) :
  is_essential_num s = true -> to_float s = Raise ex -> ex = OverflowError.
Proof.
  destruct s as [[| | | |]| |]; simpl; try discriminate; intros _ H;
    try discriminate. now apply float_of_Z_raises in H.
Qed.

Lemma attr_get_raises (m : json) (k : string) (d : json) (ex : exn) :
  attr_get m k d = Raise ex -> ex = AttributeError.
Proof. destruct m; simpl; intros H; try discriminate; now injection H. Qed.

Lemma score_and_unit_raises (e : option Entry) (ex : exn) :
  _score_and_unit e = Raise ex -> ex = AttributeError \/ ex = OverflowError.
Proof.
  unfold _score_and_unit. destruct e as [e|]; [|discriminate].
  destruct (negb (truthy e)); [discriminate|].
  intros H. apply bind_Raise_inv in H as [H|(score & _ & H)].
  { left. eapply attr_get_raises, H. }
  apply bind_Raise_inv in H as [H|(unit & _ & H)].
  { left. eapply attr_get_raises, H. }
  destruct (is_essential_num score) eqn:E; [|discriminate].
  apply bind_Raise_inv in H as [H|(f & _ & H)]; [|discriminate].
  right. eapply to_float_raises; eauto.
Qed.

Lemma numeric_score_raises (e : option Entry) (ex : exn) :
  _numeric_score e = Raise ex -> ex = AttributeError \/ ex = OverflowError.
Proof.
  unfold _numeric_score. destruct e as [[a|l|d]|]; try discriminate.
  destruct (negb (truthy (JDict d))); [discriminate|].
  intros H. apply bind_Raise_inv in H as [H|(score & _ & H)].
  { left. eapply attr_get_raises, H. }
  destruct (is_essential_num score) eqn:E; [|discriminate].
  apply bind_Raise_inv in H as [H|(f & _ & H)]; [|discriminate].
  right. eapply to_float_raises; eauto.
Qed.

(** The quotient is only taken of a nonzero baseline, so [delta_str] returns. *)
Lemma delta_str_value (bscore cscore : float) :
  delta_str bscore cscore =
  OK (if (bscore =? 0)%float then "n/a"
      else format_f false 3 (cscore / bscore) ++ "× ("
           ++ format_f true 1 ((cscore / bscore - 1) * 100)%float ++ "%)").
Proof.
  unfold delta_str, truediv. destruct (bscore =? 0)%float; reflexivity.
Qed.

Lemma numeric_unit_raises (c : option Entry) (bu cu : string) (ex : exn) :
  numeric_unit c bu cu = Raise ex -> ex = AttributeError.
Proof.
  unfold numeric_unit. destruct c as [[a|l|d]|]; try discriminate.
  intros H. apply bind_Raise_inv in H as [H|(u & _ & H)]; [|discriminate].
  eapply attr_get_raises, H.
Qed.

(** A row fails only on a metric that is no dict or on an integer score too
    large for a float. *)
Lemma row_raises (base cur : LoadedSet) (key : Key) (ex : exn) :
  row base cur key = Raise ex -> ex = AttributeError \/ ex = OverflowError.
Proof.
  unfold row. destruct key as [bench params]. intros H.
  apply bind_Raise_inv in H as [H|([bs bu] & _ & H)].
  { now apply score_and_unit_raises in H. }
  apply bind_Raise_inv in H as [H|([cs cu] & _ & H)].
  { now apply score_and_unit_raises in H. }
  apply bind_Raise_inv in H as [H|(bscore & _ & H)].
  { now apply numeric_score_raises in H. }
  apply bind_Raise_inv in H as [H|(cscore & _ & H)].
  { now apply numeric_score_raises in H. }
  apply bind_Raise_inv in H as [H|([ds u] & _ & H)]; [|discriminate].
  destruct bscore as [x|]; [|discriminate]. destruct cscore as [y|]; [|discriminate].
  rewrite delta_str_value in H. simpl in H.
  apply bind_Raise_inv in H as [H|(u & _ & H)]; [|discriminate].
  left. eapply numeric_unit_raises, H.
Qed.

(** An entry with a numeric score: what it is made of. *)
Lemma numeric_score_inv (e : option Entry) (x : float) :
  _numeric_score e = OK (Some x) ->
  exists d md,
    e = Some (JDict d) /\ truthy (JDict d) = true /\
    get_or d "primaryMetric" (JDict []) = JDict md /\
    is_essential_num (get_or md "score" JNull) = true /\
    to_float (get_or md "score" JNull) = OK x.
Proof.
  unfold _numeric_score. destruct e as [[a|l|d]|]; try discriminate.
  destruct (truthy (JDict d)) eqn:T; [|discriminate]. cbn [negb].
  destruct (get_or d "primaryMetric" (JDict [])) as [a|l|md] eqn:M;
    try discriminate.
  cbn [attr_get bind].
  destruct (is_essential_num (get_or md "score" JNull)) eqn:N; [|discriminate].
  destruct (to_float (get_or md "score" JNull)) as [f|] eqn:F; [|discriminate].
  cbn [bind]. intros H. injection H as <-. exists d, md. auto.
Qed.

Lemma score_and_unit_numeric (d md : list (string * json)) (x : float) :
  truthy (JDict d) = true ->
  get_or d "primaryMetric" (JDict []) = JDict md ->
  is_essential_num (get_or md "score" JNull) = true ->
  to_float (get_or md "score" JNull) = OK x ->
  _score_and_unit (Some (JDict d)) =
  OK (format_g 6 x, py_str (get_or md "scoreUnit" (JStr ""))).
Proof.
  intros T M N F. unfold _score_and_unit. rewrite T, M. cbn [negb attr_get bind].
  now rewrite N, F.
Qed.

(** The row of two entries with numeric scores. *)
Lemma row_numeric (base cur : LoadedSet) (key : Key) (x y : float) :
  _numeric_score (ls_get base key) = OK (Some x) ->
  _numeric_score (ls_get cur key) = OK (Some y) ->
  exists r delta_s,
    row base cur key = OK r /\
    delta_str x y = OK delta_s /\
    r_delta r = delta_s /\
    r_base r = format_g 6 x /\ r_cur r = format_g 6 y.
Proof.
  intros Hb Hc.
  destruct (numeric_score_inv _ _ Hb) as (bd & bm & Eb & Tb & Mb & Nb & Fb).
  destruct (numeric_score_inv _ _ Hc) as (cd & cm & Ec & Tc & Mc & Nc & Fc).
  unfold row. destruct key as [bench params].
  rewrite Hb, Hc, Eb, Ec.
  rewrite (score_and_unit_numeric _ _ _ Tb Mb Nb Fb).
  rewrite (score_and_unit_numeric _ _ _ Tc Mc Nc Fc).
  cbn [bind]. rewrite delta_str_value. cbn [bind].
  unfold numeric_unit. rewrite Mc. cbn [attr_get bind].
  eexists. eexists. repeat split.
Qed.

(** ** The order of keys *)

Lemma iteration_order_id : iteration_order (fun s => s).
Proof. intros s. apply Permutation_refl. Qed.

Lemma iteration_order_rev : iteration_order (@rev Key).
Proof. intros s. symmetry. apply Permutation_rev. Qed.

Lemma strongly_sorted_impl {A : Type} (P : A -> Prop) (R R' : A -> A -> Prop)
  (l : list A) :
  (forall a b, P a -> P b -> R a b -> R' a b) ->
  Forall P l -> StronglySorted R l -> StronglySorted R' l.
Proof.
  intros HR. induction l as [|a l IH]; intros Pl Hs; [constructor|].
  inversion Pl as [|? ? Pa Pl']; subst. inversion Hs as [|? ? Hs' Ha]; subst.
  constructor; auto.
  rewrite Forall_forall in *. intros b Hb. apply HR; auto.
Qed.

Lemma key_before_compare (k1 k2 : Key) :
  is_str_key k1 = true -> is_str_key k2 = true ->
  key_before k1 k2 <-> key_compare k1 k2 = Lt.
Proof.
  intros H1 H2. unfold key_before. rewrite (key_lt_compare _ _ H1 H2).
  destruct (key_compare k1 k2); simpl; split; congruence.
Qed.

(** C2, as the code has it: on keys whose benchmark and parameter values
    are strings, [k1 < k2] never fails, is the lexicographic order on the
    name and then on the sequence of (parameter, value) pairs, and is a
    strict total order: irreflexive, transitive, and with exactly one of
    [k1 < k2], [k1 = k2], [k2 < k1]. *)
Theorem str_keys_total_order (k1 k2 k3 : Key) :
  is_str_key k1 = true -> is_str_key k2 = true -> is_str_key k3 = true ->
  key_lt k1 k2 = OK (is_lt (key_compare k1 k2)) /\
  key_lt k1 k1 = OK false /\
  (key_before k1 k2 -> key_before k2 k3 -> key_before k1 k3) /\
  (key_before k1 k2 \/ k1 = k2 \/ key_before k2 k1) /\
  ~ (key_before k1 k2 /\ key_before k2 k1) /\
  ~ (key_before k1 k2 /\ k1 = k2).
Proof.
  intros H1 H2 H3. repeat split.
  - now apply key_lt_compare.
  - rewrite (key_lt_compare _ _ H1 H1), key_compare_refl. reflexivity.
  - rewrite !key_before_compare by assumption. apply key_compare_trans.
  - rewrite !key_before_compare by assumption.
    destruct (key_compare k1 k2) eqn:E.
    + right. left. now apply key_compare_eq.
    + now left.
    + right. right. rewrite key_compare_anti, E. reflexivity.
  - rewrite !key_before_compare by assumption. intros [E1 E2].
    rewrite key_compare_anti, E1 in E2. discriminate.
  - rewrite key_before_compare by assumption. intros [E1 ->].
    rewrite key_compare_refl in E1. discriminate.
Qed.

Lemma str_keys_total_order_witness :
  (is_str_key key_A = true /\ is_str_key key_B = true /\ is_str_key key_C = true) /\
  key_lt key_A key_B = OK (is_lt (key_compare key_A key_B)) /\
  key_lt key_A key_A = OK false /\
  (key_before key_A key_B -> key_before key_B key_C -> key_before key_A key_C) /\
  (key_before key_A key_B \/ key_A = key_B \/ key_before key_B key_A) /\
  ~ (key_before key_A key_B /\ key_before key_B key_A) /\
  ~ (key_before key_A key_B /\ key_A = key_B).
Proof.
  split.
  - repeat split; reflexivity.
  - apply (str_keys_total_order key_A key_B key_C); reflexivity.
Defined.

(** C2 fails as stated: the loader makes a key with n = 1 and a key with
    n = "x" of two entries of benchmark A, and comparing them, either way,
    is a [TypeError]. *)
Lemma mixed_params_comparison_fails :
  entry_key ex_int = OK key_int /\
  entry_key ex_str = OK key_str /\
  key_lt key_int key_str = Raise TypeError /\
  key_lt key_str key_int = Raise TypeError.
Proof. repeat split; reflexivity. Qed.

(** ** The keys of the table *)

Lemma sorted_str_keys (l : list Key) :
  Forall (fun k => is_str_key k = true) l -> NoDup l ->
  exists l', sorted key_lt l = OK l' /\ Permutation l l' /\
             StronglySorted (fun a b => key_compare a b = Lt) l'.
Proof.
  apply sorted_spec.
  - exact key_lt_compare.
  - exact key_compare_eq.
  - exact key_compare_anti.
  - exact key_compare_trans.
Qed.

Lemma sorted_keys_spec (set_iter : list Key -> list Key) (base cur : LoadedSet) :
  iteration_order set_iter -> str_keyed base = true -> str_keyed cur = true ->
  exists ks,
    sorted_keys set_iter base cur = OK ks /\
    StronglySorted key_before ks /\
    NoDup ks /\
    (forall k, In k ks <-> In k (keys base) \/ In k (keys cur)).
Proof.
  intros Hit Hb Hc. unfold sorted_keys.
  destruct (key_union_spec base cur Hb Hc) as (Hnd & Hs & Hin).
  set (u := set_union (set_of (keys base)) (set_of (keys cur))) in *.
  specialize (Hit u).
  destruct (sorted_str_keys (set_iter u)) as (ks & E & Hp & Hsorted).
  - eapply Permutation_Forall; [symmetry; exact Hit | exact Hs].
  - eapply Permutation_NoDup; [symmetry; exact Hit | exact Hnd].
  - assert (Hpu : Permutation u ks) by (now rewrite <- Hit).
    assert (Hks : Forall (fun k => is_str_key k = true) ks)
      by (eapply Permutation_Forall; eauto).
    exists ks. repeat split.
    + exact E.
    + eapply strongly_sorted_impl; [|exact Hks|exact Hsorted].
      intros a b Ha Hb' Hab. now apply key_before_compare.
    + eapply Permutation_NoDup; eauto.
    + intros H. apply Hin. eapply Permutation_in; [symmetry|]; eauto.
    + intros H. apply Hin in H. eapply Permutation_in; eauto.
Qed.

(** C1, as the code has it: when the benchmark and the parameter values of
    every key of either set are strings, line 80 yields the keys of either
    set, each once, in strictly ascending order, and the report holds, after
    its head, one line per key of that sequence, in that order (a row that
    raises ends the run: see C4). *)
Theorem rows_sorted_union (set_iter : list Key -> list Key) (base cur : LoadedSet)
  (title : string) (note : option string) :
  iteration_order set_iter -> str_keyed base = true -> str_keyed cur = true ->
  exists ks,
    sorted_keys set_iter base cur = OK ks /\
    StronglySorted key_before ks /\
    NoDup ks /\
    (forall k, In k ks <-> In k (keys base) \/ In k (keys cur)) /\
    compare_to_markdown set_iter base cur title note =
      (rows <- mapM (row base cur) ks ;;
       OK (String.concat newline
             (table_head title ++ map row_line rows ++ table_foot note)%list)) /\
    (forall md, compare_to_markdown set_iter base cur title note = OK md ->
       exists rows,
         Forall2 (fun k r => row base cur k = OK r) ks rows /\
         md = String.concat newline
                (table_head title ++ map row_line rows ++ table_foot note)%list).
Proof.
  intros Hit Hb Hc.
  destruct (sorted_keys_spec set_iter base cur Hit Hb Hc) as (ks & E & Hs & Hnd & Hin).
  exists ks. unfold compare_to_markdown. rewrite E. cbn [bind].
  repeat split; auto; try (now apply Hin).
  intros md H. apply bind_OK_inv in H as (rows & Hrows & H).
  injection H as <-. exists rows. split; [now apply mapM_Forall2 | reflexivity].
Qed.

Lemma rows_sorted_union_witness :
  (iteration_order (@rev Key) /\ str_keyed ex_base = true /\ str_keyed ex_cur = true) /\
  exists ks,
    sorted_keys (@rev Key) ex_base ex_cur = OK ks /\
    StronglySorted key_before ks /\
    NoDup ks /\
    (forall k, In k ks <-> In k (keys ex_base) \/ In k (keys ex_cur)) /\
    compare_to_markdown (@rev Key) ex_base ex_cur "T" None =
      (rows <- mapM (row ex_base ex_cur) ks ;;
       OK (String.concat newline
             (table_head "T" ++ map row_line rows ++ table_foot None)%list)) /\
    (forall md, compare_to_markdown (@rev Key) ex_base ex_cur "T" None = OK md ->
       exists rows,
         Forall2 (fun k r => row ex_base ex_cur k = OK r) ks rows /\
         md = String.concat newline
                (table_head "T" ++ map row_line rows ++ table_foot None)%list).
Proof.
  split.
  - split; [exact iteration_order_rev | split; reflexivity].
  - apply (rows_sorted_union (@rev Key) ex_base ex_cur "T" None);
      [exact iteration_order_rev | reflexivity | reflexivity].
Defined.

(** C1 fails as stated: a baseline whose key has n = 1 and a current set
    whose key has n = "x" are loaded from well-formed files, and for them
    line 80 raises [TypeError] whichever way the set is iterated, so no row
    is produced at all. *)
Lemma mixed_keys_no_rows :
  load_entries [JDict ex_int] [] = OK [(key_int, JDict ex_int)] /\
  load_entries [JDict ex_str] [] = OK [(key_str, JDict ex_str)] /\
  compare_to_markdown (fun s => s) [(key_int, JDict ex_int)] [(key_str, JDict ex_str)]
    "T" None = Raise TypeError /\
  compare_to_markdown (@rev Key) [(key_int, JDict ex_int)] [(key_str, JDict ex_str)]
    "T" None = Raise TypeError.
Proof. repeat split; reflexivity. Qed.

(** ** Determinism *)

Lemma mapM_ext_in {A B : Type} (f g : A -> result B) (l : list A) :
  (forall x, In x l -> f x = g x) -> mapM f l = mapM g l.
Proof.
  induction l as [|x l IH]; intros H; simpl; [reflexivity|].
  rewrite (H x (or_introl eq_refl)), IH; [reflexivity|].
  intros y Hy. apply H. now right.
Qed.

(** A row reads the two sets through [get] only. *)
Lemma row_ext (base base' cur cur' : LoadedSet) (k : Key) :
  ls_get base k = ls_get base' k -> ls_get cur k = ls_get cur' k ->
  row base cur k = row base' cur' k.
Proof. unfold row. destruct k as [bench params]. now intros -> ->. Qed.

Lemma ls_get_In (d : LoadedSet) (k : Key) (e : Entry) :
  str_keyed d = true -> NoDup (keys d) -> is_str_key k = true ->
  ls_get d k = Some e <-> In (k, e) d.
Proof.
  unfold str_keyed, keys.
  induction d as [|[k' e'] d IH]; simpl; intros Hs Hnd Hk.
  - split; [discriminate | tauto].
  - apply andb_true_iff in Hs as [Hk' Hs].
    inversion Hnd as [|? ? Hnin Hnd']; subst.
    destruct (key_same k' k) eqn:E.
    + apply key_same_eq in E; auto. subst k'. split.
      * intros H. injection H as <-. now left.
      * intros [H|H]; [now injection H as <- |].
        exfalso. apply Hnin. apply (in_map fst) in H. exact H.
    + rewrite (IH Hs Hnd' Hk). split; [tauto|]. intros [H|H]; [|exact H].
      injection H as -> ->. exfalso.
      assert (key_same k k = true) by (apply key_same_eq; auto). congruence.
Qed.

Lemma str_keyed_perm (d d' : LoadedSet) :
  Permutation d d' -> str_keyed d = true -> str_keyed d' = true.
Proof.
  unfold str_keyed, keys. rewrite !forallb_forall. intros Hp H k Hk.
  apply H. eapply Permutation_in; [|exact Hk].
  apply Permutation_map. now symmetry.
Qed.

(** The order in which a dict holds its items does not change what [get]
    finds. *)
Lemma ls_get_perm (d d' : LoadedSet) (k : Key) :
  str_keyed d = true -> NoDup (keys d) -> Permutation d d' ->
  is_str_key k = true -> ls_get d k = ls_get d' k.
Proof.
  intros Hs Hnd Hp Hk.
  assert (Hs' : str_keyed d' = true) by (eapply str_keyed_perm; eauto).
  assert (Hnd' : NoDup (keys d')).
  { eapply Permutation_NoDup; [|exact Hnd]. now apply Permutation_map. }
  destruct (ls_get d k) as [e|] eqn:E1.
  - symmetry. apply ls_get_In; auto. apply ls_get_In in E1; auto.
    eapply Permutation_in; eauto.
  - destruct (ls_get d' k) as [e'|] eqn:E2; [|reflexivity].
    apply ls_get_In in E2; auto.
    assert (H : In (k, e') d) by (eapply Permutation_in; [symmetry|]; eauto).
    apply ls_get_In in H; auto. congruence.
Qed.

(** C6, as the code has it: when the benchmark and the parameter values of
    every key are strings, the report is a function of the two mappings,
    the title and the note: it is the same under every order in which the
    set of keys may be iterated and under every order in which the two
    dicts hold their items. *)
Theorem report_independent_of_set_order (iter1 iter2 : list Key -> list Key)
  (base base' cur cur' : LoadedSet) (title : string) (note : option string) :
  iteration_order iter1 -> iteration_order iter2 ->
  str_keyed base = true -> str_keyed cur = true ->
  NoDup (keys base) -> NoDup (keys cur) ->
  Permutation base base' -> Permutation cur cur' ->
  compare_to_markdown iter1 base cur title note =
  compare_to_markdown iter2 base' cur' title note.
Proof.
  intros H1 H2 Hb Hc Nb Nc Pb Pc.
  assert (Hb' : str_keyed base' = true) by (eapply str_keyed_perm; eauto).
  assert (Hc' : str_keyed cur' = true) by (eapply str_keyed_perm; eauto).
  unfold compare_to_markdown, sorted_keys.
  destruct (key_union_spec base cur Hb Hc) as (Hnd & Hs & Hin).
  destruct (key_union_spec base' cur' Hb' Hc') as (Hnd' & Hs' & Hin').
  set (u := set_union (set_of (keys base)) (set_of (keys cur))) in *.
  set (u' := set_union (set_of (keys base')) (set_of (keys cur'))) in *.
  assert (Hu : Permutation u u').
  { apply NoDup_Permutation; auto. intros k. rewrite Hin, Hin'. unfold keys.
    split; (intros [H|H]; [left|right]);
      (eapply Permutation_in; [|exact H]); apply Permutation_map;
      auto; now symmetry. }
  assert (Hp : Permutation (iter1 u) (iter2 u')).
  { rewrite (H1 u), Hu. symmetry. apply H2. }
  assert (Hs1 : Forall (fun k => is_str_key k = true) (iter1 u)).
  { eapply Permutation_Forall; [symmetry; apply H1 | exact Hs]. }
  rewrite (sorted_permutation key_lt (fun k => is_str_key k = true) key_compare
             key_lt_compare key_compare_eq key_compare_anti key_compare_trans
             (iter1 u) (iter2 u')); auto.
  - destruct (sorted_str_keys (iter2 u')) as (ks & -> & Hpk & _).
    + eapply Permutation_Forall; eauto.
    + eapply Permutation_NoDup; [exact Hp|].
      eapply Permutation_NoDup; [symmetry; apply H1 | exact Hnd].
    + cbn [bind]. rewrite (mapM_ext_in (row base cur) (row base' cur') ks);
        [reflexivity|].
      intros k Hk.
      assert (Sk : is_str_key k = true).
      { assert (Hf : Forall (fun k => is_str_key k = true) ks).
        { eapply Permutation_Forall; [exact Hpk|].
          eapply Permutation_Forall; eauto. }
        rewrite Forall_forall in Hf. auto. }
      apply row_ext; apply ls_get_perm; auto.
  - eapply Permutation_NoDup; [symmetry; apply H1 | exact Hnd].
Qed.

Lemma report_independent_of_set_order_witness :
  (iteration_order (fun s => s) /\ iteration_order (@rev Key) /\
   str_keyed ex_base = true /\ str_keyed ex_cur = true /\
   NoDup (keys ex_base) /\ NoDup (keys ex_cur) /\
   Permutation ex_base (rev ex_base) /\ Permutation ex_cur (rev ex_cur)) /\
  compare_to_markdown (fun s => s) ex_base ex_cur "T" None =
  compare_to_markdown (@rev Key) (rev ex_base) (rev ex_cur) "T" None.
Proof.
  assert (Nb : NoDup (keys ex_base)).
  { repeat constructor; simpl; intuition discriminate. }
  assert (Nc : NoDup (keys ex_cur)).
  { repeat constructor; simpl; intuition discriminate. }
  split.
  - repeat split; auto using iteration_order_id, iteration_order_rev, Permutation_rev.
  - apply (report_independent_of_set_order (fun s => s) (@rev Key)
             ex_base (rev ex_base) ex_cur (rev ex_cur) "T" None);
      auto using iteration_order_id, iteration_order_rev, Permutation_rev.
Defined.

(** C6 fails as stated: with a parameter that is NaN in one key and 1.0 in
    another, neither key is smaller than the other, [sorted] leaves them as
    the set yields them, and the two rows of the report come in the order
    of the set's iteration. *)
Lemma nan_keys_order_dependent :
  load_entries [JDict ex_nan] [] = OK [(key_nan, JDict ex_nan)] /\
  load_entries [JDict ex_one] [] = OK [(key_one, JDict ex_one)] /\
  key_lt key_nan key_one = OK false /\
  key_lt key_one key_nan = OK false /\
  sorted_keys (fun s => s) [(key_nan, JDict ex_nan)] [(key_one, JDict ex_one)]
    = OK [key_nan; key_one] /\
  sorted_keys (@rev Key) [(key_nan, JDict ex_nan)] [(key_one, JDict ex_one)]
    = OK [key_one; key_nan] /\
  mapM (row [(key_nan, JDict ex_nan)] [(key_one, JDict ex_one)]) [key_nan; key_one]
    = OK [ {| r_bench := "A"; r_params := "n=nan"; r_base := "100"; r_cur := EM_DASH;
              r_delta := "n/a"; r_unit := "ops/s" |};
           {| r_bench := "A"; r_params := "n=1.0"; r_base := EM_DASH; r_cur := "110";
              r_delta := "n/a"; r_unit := "ops/s" |} ] /\
  compare_to_markdown (fun s => s) [(key_nan, JDict ex_nan)] [(key_one, JDict ex_one)]
    "T" None <>
  compare_to_markdown (@rev Key) [(key_nan, JDict ex_nan)] [(key_one, JDict ex_one)]
    "T" None.
Proof.
  repeat split; try (vm_compute; reflexivity).
  vm_compute. intros H. discriminate H.
Qed.

(** ** Scores *)

(** C3: in a row where both entries have a numeric score and the baseline
    score is zero (0, 0.0, -0.0 or [false]), the delta is "n/a" and the row
    is produced; and no row whatever raises [ZeroDivisionError], the
    quotient being taken only of a baseline that is not zero. *)
Theorem zero_baseline_guard (base cur : LoadedSet) (key : Key) (x y : float) :
  _numeric_score (ls_get base key) = OK (Some x) ->
  _numeric_score (ls_get cur key) = OK (Some y) ->
  (x =? 0)%float = true ->
  delta_str x y = OK "n/a" /\
  (exists r, row base cur key = OK r /\ r_delta r = "n/a") /\
  (forall b c k, row b c k <> Raise ZeroDivisionError) /\
  (forall b c, delta_str b c <> Raise ZeroDivisionError).
Proof.
  intros Hb Hc Hx.
  assert (Hd : delta_str x y = OK "n/a") by (now rewrite delta_str_value, Hx).
  repeat split.
  - exact Hd.
  - destruct (row_numeric base cur key x y Hb Hc) as (r & ds & Hr & Hds & E & _).
    exists r. split; [exact Hr|]. rewrite Hd in Hds. congruence.
  - intros b c k H. apply row_raises in H as [H|H]; discriminate H.
  - intros b c. rewrite delta_str_value. discriminate.
Qed.

Lemma zero_baseline_guard_witness :
  (_numeric_score (ls_get [(key_A, JDict ex_zero)] key_A) = OK (Some 0%float) /\
   _numeric_score (ls_get ex_cur key_A) = OK (Some 110%float) /\
   (0 =? 0)%float = true) /\
  delta_str 0 110 = OK "n/a" /\
  (exists r, row [(key_A, JDict ex_zero)] ex_cur key_A = OK r /\ r_delta r = "n/a") /\
  (forall b c k, row b c k <> Raise ZeroDivisionError) /\
  (forall b c, delta_str b c <> Raise ZeroDivisionError).
Proof.
  split.
  - repeat split; reflexivity.
  - apply (zero_baseline_guard [(key_A, JDict ex_zero)] ex_cur key_A 0 110);
      reflexivity.
Defined.

Lemma dict_get_truthy (d : list (string * json)) (k : string) (v : json) :
  dict_get d k = Some v -> truthy (JDict d) = true.
Proof. destruct d; [discriminate | reflexivity]. Qed.

Lemma get_or_Some (d : list (string * json)) (k : string) (v default : json) :
  dict_get d k = Some v -> get_or d k default = v.
Proof. unfold get_or. now intros ->. Qed.

Lemma get_or_None (d : list (string * json)) (k : string) (default : json) :
  dict_get d k = None -> get_or d k default = default.
Proof. unfold get_or. now intros ->. Qed.

Lemma format_g_bool (b : bool) :
  format_g 6 (if b then 1 else 0)%float = if b then "1" else "0".
Proof. destruct b; vm_compute; reflexivity. Qed.

(** C10: an entry whose score is a JSON boolean passes the test
    [isinstance(score, essential_num_types)]; its score is shown as 1 or 0
    and its numeric score is 1.0 or 0.0.  It takes part in the delta of its
    row: as the baseline against a numeric score [y], [true] gives the
    delta cell of the quotient [y / 1.0] and [false], being zero, gives
    "n/a"; as the current score against a numeric baseline [x] that is not
    zero, it gives the delta cell of the quotient [1.0 / x] or [0.0 / x]. *)
Theorem boolean_score_is_numeric (d md : list (string * json)) (b : bool) :
  dict_get d "primaryMetric" = Some (JDict md) ->
  dict_get md "score" = Some (JBool b) ->
  is_essential_num (JBool b) = true /\
  _score_and_unit (Some (JDict d)) =
    OK (if b then "1" else "0", py_str (get_or md "scoreUnit" (JStr ""))) /\
  _numeric_score (Some (JDict d)) = OK (Some (if b then 1 else 0)%float) /\
  (forall base cur key y,
     ls_get base key = Some (JDict d) ->
     _numeric_score (ls_get cur key) = OK (Some y) ->
     exists r, row base cur key = OK r /\
       r_base r = (if b then "1" else "0") /\
       r_cur r = format_g 6 y /\
       r_delta r =
         if b
         then format_f false 3 (y / 1) ++ "× ("
              ++ format_f true 1 ((y / 1 - 1) * 100)%float ++ "%)"
         else "n/a") /\
  (forall base cur key x,
     _numeric_score (ls_get base key) = OK (Some x) ->
     ls_get cur key = Some (JDict d) ->
     exists r, row base cur key = OK r /\
       r_base r = format_g 6 x /\
       r_cur r = (if b then "1" else "0") /\
       r_delta r =
         if (x =? 0)%float then "n/a"
         else format_f false 3 ((if b then 1 else 0) / x) ++ "× ("
              ++ format_f true 1 (((if b then 1 else 0) / x - 1) * 100)%float
              ++ "%)").
Proof.
  intros Hm Hs.
  assert (T : truthy (JDict d) = true) by (eapply dict_get_truthy; eauto).
  assert (M : get_or d "primaryMetric" (JDict []) = JDict md)
    by (now apply get_or_Some).
  assert (S : get_or md "score" JNull = JBool b) by (now apply get_or_Some).
  assert (N : _numeric_score (Some (JDict d)) = OK (Some (if b then 1 else 0)%float)).
  { unfold _numeric_score. rewrite T, M. cbn [negb attr_get bind]. rewrite S.
    reflexivity. }
  repeat split.
  - rewrite (score_and_unit_numeric d md (if b then 1 else 0)%float T M);
      rewrite ?S; try reflexivity.
    now rewrite format_g_bool.
  - exact N.
  - intros base cur key y Hb Hc. rewrite <- Hb in N.
    destruct (row_numeric base cur key _ y N Hc)
      as (r & ds & Hr & Hds & E & Rb & Rc).
    exists r. split; [exact Hr|]. split; [|split; [exact Rc|]].
    + now rewrite Rb, format_g_bool.
    + rewrite delta_str_value in Hds. injection Hds as Hds.
      rewrite E, <- Hds. destruct b; reflexivity.
  - intros base cur key x Hb Hc. rewrite <- Hc in N.
    destruct (row_numeric base cur key x _ Hb N)
      as (r & ds & Hr & Hds & E & Rb & Rc).
    exists r. split; [exact Hr|]. split; [exact Rb|]. split.
    + now rewrite Rc, format_g_bool.
    + rewrite delta_str_value in Hds. injection Hds as Hds.
      now rewrite E, <- Hds.
Qed.

Lemma boolean_score_is_numeric_witness :
  (dict_get ex_true "primaryMetric" = Some (JDict ex_true_metric) /\
   dict_get ex_true_metric "score" = Some (JBool true)) /\
  is_essential_num (JBool true) = true /\
  _score_and_unit (Some (JDict ex_true)) = OK ("1", "ops/s") /\
  _numeric_score (Some (JDict ex_true)) = OK (Some 1%float) /\
  (forall base cur key y,
     ls_get base key = Some (JDict ex_true) ->
     _numeric_score (ls_get cur key) = OK (Some y) ->
     exists r, row base cur key = OK r /\
       r_base r = "1" /\ r_cur r = format_g 6 y /\
       r_delta r = format_f false 3 (y / 1) ++ "× ("
                   ++ format_f true 1 ((y / 1 - 1) * 100)%float ++ "%)") /\
  (forall base cur key x,
     _numeric_score (ls_get base key) = OK (Some x) ->
     ls_get cur key = Some (JDict ex_true) ->
     exists r, row base cur key = OK r /\
       r_base r = format_g 6 x /\ r_cur r = "1" /\
       r_delta r =
         if (x =? 0)%float then "n/a"
         else format_f false 3 (1 / x) ++ "× ("
              ++ format_f true 1 ((1 / x - 1) * 100)%float ++ "%)").
Proof.
  split.
  - split; reflexivity.
  - apply (boolean_score_is_numeric ex_true ex_true_metric true); reflexivity.
Defined.

(** A baseline score of [true] against a score of 110. *)
Example boolean_score_row :
  row [(key_A, JDict ex_true)] ex_cur key_A =
    OK {| r_bench := "A"; r_params := "n=1"; r_base := "1"; r_cur := "110";
          r_delta := "110.000× (+10900.0%)"; r_unit := "ops/s" |}.
Proof. vm_compute. reflexivity. Qed.

(** An entry without a primary metric has no score: it is shown as the em
    dash and takes no part in a delta. *)
Lemma absent_metric_is_missing (d : list (string * json)) :
  dict_get d "primaryMetric" = None ->
  _score_and_unit (Some (JDict d)) = OK (EM_DASH, "") /\
  _numeric_score (Some (JDict d)) = OK None.
Proof.
  intros H. unfold _score_and_unit, _numeric_score.
  destruct (truthy (JDict d)); cbn [negb]; [|auto].
  rewrite (get_or_None _ _ _ H). split; reflexivity.
Qed.

(** An integer score too large for a float (here 10^400) is another way for
    a single entry to end the run: [float(score)] raises [OverflowError]. *)
Example huge_integer_score_overflows :
  _score_and_unit (Some (JDict (entry (JStr "A") [] (JInt (10 ^ 400)) (JStr "s"))))
  = Raise OverflowError.
Proof. vm_compute. reflexivity. Qed.

(** C4 does not hold of the code: a primary metric that is present and is
    no dict (here the number 5) makes [_score_and_unit] and
    [_numeric_score] raise [AttributeError], and the run ends with a
    traceback and no report, while params that are no dict are replaced by
    the empty dict. *)
Theorem non_dict_metric_aborts :
  entry_key ex_bad_params = OK (PyStr "A", []) /\
  load_entries [JDict ex_bad_metric] [] = OK [((PyStr "A", []), JDict ex_bad_metric)] /\
  _score_and_unit (Some (JDict ex_bad_metric)) = Raise AttributeError /\
  _numeric_score (Some (JDict ex_bad_metric)) = Raise AttributeError /\
  main fs_bad_metric (fun s => s) ex_args w0 = (Raise AttributeError, w0) /\
  exit_status (fst (main fs_bad_metric (fun s => s) ex_args w0)) = 1%Z.
Proof. repeat split; reflexivity. Qed.

(** ** The loader *)

Lemma insert_total {A : Type} (lt : A -> A -> result bool) (x : A) (l : list A) :
  (forall a b, exists c, lt a b = OK c) ->
  exists l', insert lt x l = OK l' /\ Permutation (x :: l) l'.
Proof.
  intros Hlt. induction l as [|y l (r & Hr & Hp)]; simpl; [eauto|].
  destruct (Hlt y x) as (c & ->). simpl. destruct c; [|eauto].
  rewrite Hr. simpl. exists (y :: r). split; [reflexivity|].
  rewrite perm_swap. now constructor.
Qed.

(** Where [<] never raises, [sorted] returns a rearrangement. *)
Lemma sorted_total {A : Type} (lt : A -> A -> result bool) (l : list A) :
  (forall a b, exists c, lt a b = OK c) ->
  exists l', sorted lt l = OK l' /\ Permutation l l'.
Proof.
  intros Hlt. induction l as [|x l (s & Hs & Hp)]; simpl; [eauto|].
  rewrite Hs. simpl. destruct (insert_total lt x s Hlt) as (r & Hr & Hpr).
  exists r. split; [exact Hr|]. rewrite <- Hpr. now constructor.
Qed.

Lemma mapM_Raise_inv {A B : Type} (f : A -> result B) (l : list A) (ex : exn) :
  mapM f l = Raise ex -> exists x, In x l /\ f x = Raise ex.
Proof.
  induction l as [|x l IH]; simpl; [discriminate|]. intros H.
  apply bind_Raise_inv in H as [H|(y & _ & H)].
  - exists x. auto.
  - apply bind_Raise_inv in H as [H|(ys & _ & H)]; [|discriminate].
    destruct (IH H) as (x' & Hin & Hx'). exists x'. auto.
Qed.

Lemma hashable_raises (x : json) (ex : exn) : hashable x = Raise ex -> ex = TypeError.
Proof. destruct x; simpl; intros H; try discriminate; now injection H. Qed.

(** Making the key of an entry fails only on a benchmark or a parameter
    value that cannot be hashed. *)
Lemma entry_key_raises (e : list (string * json)) (ex : exn) :
  entry_key e = Raise ex -> ex = TypeError.
Proof.
  unfold entry_key. intros H.
  apply bind_Raise_inv in H as [H|(items & _ & H)].
  { destruct (sorted_total item_lt (entry_params e)) as (l' & Hl' & _).
    - intros a b. unfold item_lt. eauto.
    - rewrite Hl' in H. discriminate. }
  apply bind_Raise_inv in H as [H|(b & _ & H)].
  { eapply hashable_raises, H. }
  apply bind_Raise_inv in H as [H|(ps & _ & H)]; [|discriminate].
  apply mapM_Raise_inv in H as (kv & _ & H).
  apply bind_Raise_inv in H as [H|(v & _ & H)]; [|discriminate].
  eapply hashable_raises, H.
Qed.

Lemma load_entries_raises (data : list json) (res : LoadedSet) (ex : exn) :
  load_entries data res = Raise ex -> ex = TypeError.
Proof.
  revert res. induction data as [|e data IH]; simpl; intros res H; [discriminate|].
  destruct e as [a|l|d]; eauto.
  apply bind_Raise_inv in H as [H|(key & _ & H)]; eauto.
  eapply entry_key_raises, H.
Qed.

Lemma hash_items_str (items : list (string * json)) :
  Forall (fun kv => is_jstr (snd kv) = true) items ->
  exists ps,
    mapM (fun kv => v <- hashable (snd kv) ;; OK (fst kv, v)) items = OK ps /\
    forallb (fun kv => is_str (snd kv)) ps = true.
Proof.
  induction 1 as [|[k v] items Hv _ (ps & Hps & Hstr)]; simpl; [eauto|].
  destruct v as [[| | | |s]| |]; try discriminate. simpl. rewrite Hps. simpl.
  exists ((k, PyStr s) :: ps). auto.
Qed.

(** The key of an entry that JMH wrote is made of strings. *)
Lemma entry_key_str (d : list (string * json)) :
  jmh_entry (JDict d) = true ->
  exists k, entry_key d = OK k /\ is_str_key k = true.
Proof.
  simpl. rewrite andb_true_iff, forallb_forall, <- Forall_forall. intros [Hb Hp].
  unfold entry_key.
  destruct (sorted_total item_lt (entry_params d)) as (items & -> & Hperm).
  { intros a b. unfold item_lt. eauto. }
  cbn [bind].
  destruct (get_or d "benchmark" (JStr "")) as [[| | | |s]| |]; try discriminate.
  cbn [hashable bind].
  destruct (hash_items_str items) as (ps & -> & Hps).
  { eapply Permutation_Forall; eauto. }
  cbn [bind]. exists (PyStr s, ps). split; [reflexivity|].
  unfold is_str_key. cbn [fst snd is_str andb]. exact Hps.
Qed.

Lemma ls_set_str_keyed (res : LoadedSet) (k : Key) (e : Entry) :
  str_keyed res = true -> is_str_key k = true -> str_keyed (ls_set res k e) = true.
Proof.
  unfold str_keyed, keys. intros Hres Hk.
  induction res as [|[k' e'] res IH]; simpl in *.
  - now rewrite Hk.
  - apply andb_true_iff in Hres as [Hk' Hres].
    destruct (key_same k' k); simpl; rewrite Hk'; auto.
Qed.

(** A file of entries that JMH wrote loads, and every key of the loaded set
    is made of strings. *)
Lemma load_entries_str_keyed (data : list json) (res : LoadedSet) :
  forallb jmh_entry data = true -> str_keyed res = true ->
  exists res', load_entries data res = OK res' /\ str_keyed res' = true.
Proof.
  revert res. induction data as [|e data IH]; intros res Hd Hres; simpl; [eauto|].
  simpl in Hd. apply andb_true_iff in Hd as [He Hd].
  destruct e as [a|l|d]; auto.
  destruct (entry_key_str d He) as (k & -> & Hk). cbn [bind].
  apply IH; auto. now apply ls_set_str_keyed.
Qed.

Lemma insert_raises {A : Type} (lt : A -> A -> result bool) (x : A) (l : list A)
  (ex : exn) :
  insert lt x l = Raise ex -> exists a b, lt a b = Raise ex.
Proof.
  induction l as [|y l IH]; simpl; [discriminate|]. intros H.
  apply bind_Raise_inv in H as [H|(c & _ & H)]; [eauto|].
  destruct c; [|discriminate].
  apply bind_Raise_inv in H as [H|(r & _ & H)]; [auto | discriminate].
Qed.

(** [sorted] raises only what a comparison raises. *)
Lemma sorted_raises {A : Type} (lt : A -> A -> result bool) (l : list A) (ex : exn) :
  sorted lt l = Raise ex -> exists a b, lt a b = Raise ex.
Proof.
  induction l as [|x l IH]; simpl; [discriminate|]. intros H.
  apply bind_Raise_inv in H as [H|(s & _ & H)]; [auto|].
  eapply insert_raises, H.
Qed.

Lemma py_lt_raises (a b : atom) (ex : exn) : py_lt a b = Raise ex -> ex = TypeError.
Proof.
  unfold py_lt. destruct a, b; simpl; intros H; try discriminate; now injection H.
Qed.

Lemma params_lt_raises (p q : list (string * atom)) (ex : exn) :
  params_lt p q = Raise ex -> ex = TypeError.
Proof.
  revert q. induction p as [|x p IH]; intros [|y q]; simpl; try discriminate.
  destruct (pair_same x y); [apply IH|]. unfold pair_lt.
  destruct (fst x =? fst y); [|discriminate].
  destruct (py_same (snd x) (snd y)); [discriminate|]. apply py_lt_raises.
Qed.

Lemma key_lt_raises (k1 k2 : Key) (ex : exn) : key_lt k1 k2 = Raise ex -> ex = TypeError.
Proof.
  unfold key_lt. destruct (py_same (fst k1) (fst k2));
    [apply params_lt_raises | apply py_lt_raises].
Qed.

(** The comparison raises a [TypeError] (keys that do not compare), an
    [AttributeError] (a metric that is no dict) or an [OverflowError] (an
    integer score too large), and nothing else. *)
Lemma compare_raises (set_iter : list Key -> list Key) (base cur : LoadedSet)
  (title : string) (note : option string) (ex : exn) :
  compare_to_markdown set_iter base cur title note = Raise ex ->
  ex = TypeError \/ ex = AttributeError \/ ex = OverflowError.
Proof.
  unfold compare_to_markdown, sorted_keys. intros H.
  apply bind_Raise_inv in H as [H|(ks & _ & H)].
  { apply sorted_raises in H as (a & b & H). left. eapply key_lt_raises, H. }
  apply bind_Raise_inv in H as [H|(rows & _ & H)]; [|discriminate].
  apply mapM_Raise_inv in H as (k & _ & H).
  apply row_raises in H. tauto.
Qed.

(** [load] writes to the diagnostic channel only. *)
Lemma load_stdout (fs : string -> read_outcome) (path : string) (w : world) :
  stdout (snd (load fs path w)) = stdout w.
Proof.
  unfold load. destruct (fs path) as [|e|msg|[a|l|d]]; reflexivity.
Qed.

Lemma load_exit (fs : string -> read_outcome) (path : string) (w : world) (code : Z) :
  fst (load fs path w) = Raise (SystemExit code) ->
  code = 2%Z /\ exists msg, fs path = JSONDecodeError msg.
Proof.
  unfold load. intros H.
  destruct (fs path) as [|e|msg|[a|l|d]]; simpl in H; try discriminate.
  - injection H as <-. eauto.
  - apply load_entries_raises in H. discriminate.
Qed.

(** C5, as the code has it: a source that is absent ([FileNotFoundError])
    loads as the empty set, with nothing printed; a source that is read
    but is no JSON makes the loader exit with status 2, and the loader
    exits with a status for no other source; any other failure to open or
    read the source is not caught and leaves [load] as it was raised.  In
    a run whose command line parsed to [args], a baseline that is no JSON,
    or a current source that is no JSON once the baseline has loaded, ends
    the process with status 2 and no report. *)
Theorem load_absent_or_unparsable (fs : string -> read_outcome) (path : string)
  (w : world) :
  (fs path = FileNotFound -> load fs path w = (OK [], w)) /\
  (forall msg, fs path = JSONDecodeError msg ->
     fst (load fs path w) = Raise (SystemExit 2) /\
     exit_status (Raise (SystemExit 2)) = 2%Z /\
     stdout (snd (load fs path w)) = stdout w) /\
  (forall code, fst (load fs path w) = Raise (SystemExit code) ->
     code = 2%Z /\ exists msg, fs path = JSONDecodeError msg) /\
  (forall e, fs path = ReadFails e -> load fs path w = (Raise (ReadError e), w)) /\
  (forall set_iter args msg,
     fs (baseline args) = JSONDecodeError msg ->
     exit_status (fst (main fs set_iter args w)) = 2%Z /\
     stdout (snd (main fs set_iter args w)) = stdout w) /\
  (forall set_iter args msg base w1,
     load fs (baseline args) w = (OK base, w1) ->
     fs (current args) = JSONDecodeError msg ->
     exit_status (fst (main fs set_iter args w)) = 2%Z /\
     stdout (snd (main fs set_iter args w)) = stdout w).
Proof.
  split; [|split; [|split; [|split; [|split]]]].
  - unfold load. now intros ->.
  - unfold load. intros msg ->. auto.
  - apply load_exit.
  - unfold load. now intros e ->.
  - intros set_iter args msg H. unfold main, load. rewrite H.
    split; reflexivity.
  - intros set_iter args msg base w1 Hb Hc.
    pose proof (load_stdout fs (baseline args) w) as O. rewrite Hb in O.
    unfold main. rewrite Hb. unfold load. rewrite Hc.
    split; [reflexivity | exact O].
Qed.

(** A parameter value that is a list cannot be hashed: the loader raises
    [TypeError] at [result[key] = e]. *)
Example unhashable_parameter_aborts_load :
  load_entries [JDict (entry (JStr "A") [("n", JList [])] (JInt 1) (JStr "s"))] []
  = Raise TypeError.
Proof. reflexivity. Qed.

(** C5 fails as stated: a baseline that is there and cannot be read
    (permission denied) is not loaded as the empty set; the exception leaves
    [load] and [main], and the process ends with a traceback and status 1. *)
Lemma unreadable_source_surfaces :
  load fs_denied "base.json" w0 = (Raise (ReadError PermissionError), w0) /\
  main fs_denied (fun s => s) ex_args w0 = (Raise (ReadError PermissionError), w0) /\
  exit_status (fst (main fs_denied (fun s => s) ex_args w0)) = 1%Z.
Proof. repeat split; reflexivity. Qed.

(** ** The driver *)

(** C9, as the code has it: once both sources are loaded, [main] returns 1
    exactly when both sets are empty, and then prints the error and no
    report; when a set is not empty it runs the comparison, and prints the
    report and returns 0 when the comparison returns one (an exception of
    the comparison leaves [main], with no report). *)
Theorem main_outcome (fs : string -> read_outcome) (set_iter : list Key -> list Key)
  (args : Namespace) (w w1 w2 : world) (base cur : LoadedSet) :
  load fs (baseline args) w = (OK base, w1) ->
  load fs (current args) w1 = (OK cur, w2) ->
  (fst (main fs set_iter args w) = OK 1%Z <-> base = [] /\ cur = []) /\
  (base = [] /\ cur = [] ->
     main fs set_iter args w = (OK 1%Z, eprint no_data_message w2) /\
     stdout (snd (main fs set_iter args w)) = stdout w) /\
  (~ (base = [] /\ cur = []) ->
     main fs set_iter args w =
     match compare_to_markdown set_iter base cur (title args) (note args) with
     | OK md => (OK 0%Z, print md w2)
     | Raise e => (Raise e, w2)
     end).
Proof.
  intros Hb Hc.
  assert (Hout : stdout w2 = stdout w).
  { pose proof (load_stdout fs (baseline args) w) as E1.
    pose proof (load_stdout fs (current args) w1) as E2.
    rewrite Hb in E1. rewrite Hc in E2. simpl in E1, E2. congruence. }
  unfold main. rewrite Hb, Hc.
  destruct (is_empty base && is_empty cur) eqn:E.
  - apply andb_true_iff in E as [E1 E2].
    destruct base; [|discriminate]. destruct cur; [|discriminate].
    cbn [fst snd]. split; [|split].
    + split; auto.
    + intros _. split; [reflexivity | exact Hout].
    + intros H. exfalso. apply H. auto.
  - assert (N : ~ (base = [] /\ cur = [])).
    { intros [-> ->]. discriminate E. }
    split; [|split].
    + split; [|intros H; contradiction]. intros H. exfalso.
      destruct (compare_to_markdown set_iter base cur (title args) (note args));
        discriminate H.
    + intros H. contradiction.
    + intros _. reflexivity.
Qed.

Lemma main_outcome_witness :
  (load fs_ex (baseline ex_args) w0 = (OK ex_base, w0) /\
   load fs_ex (current ex_args) w0 = (OK ex_cur, w0)) /\
  (fst (main fs_ex (fun s => s) ex_args w0) = OK 1%Z <-> ex_base = [] /\ ex_cur = []) /\
  (ex_base = [] /\ ex_cur = [] ->
     main fs_ex (fun s => s) ex_args w0 = (OK 1%Z, eprint no_data_message w0) /\
     stdout (snd (main fs_ex (fun s => s) ex_args w0)) = stdout w0) /\
  (~ (ex_base = [] /\ ex_cur = []) ->
     main fs_ex (fun s => s) ex_args w0 =
     match compare_to_markdown (fun s => s) ex_base ex_cur (title ex_args) (note ex_args) with
     | OK md => (OK 0%Z, print md w0)
     | Raise e => (Raise e, w0)
     end).
Proof.
  split.
  - split; reflexivity.
  - apply (main_outcome fs_ex (fun s => s) ex_args w0 w0 w0 ex_base ex_cur);
      reflexivity.
Defined.

(** C9 fails as stated: a baseline with the two entries n = 1 and n = "x"
    loads as a set of two keys, the current file is absent, and [main]
    neither prints a report nor returns 0: sorting the keys raises
    [TypeError]. *)
Lemma nonempty_set_without_report :
  load fs_mixed "base.json" w0 =
    (OK [(key_int, JDict ex_int); (key_str, JDict ex_str)], w0) /\
  load fs_mixed "pr.json" w0 = (OK [], w0) /\
  main fs_mixed (fun s => s) ex_args w0 = (Raise TypeError, w0) /\
  main fs_mixed (@rev Key) ex_args w0 = (Raise TypeError, w0).
Proof. repeat split; reflexivity. Qed.

(** ** Decimal places *)

Lemma length_append (s t : string) :
  String.length (s ++ t) = String.length s + String.length t.
Proof. induction s as [|c s IH]; simpl; [reflexivity | now rewrite IH]. Qed.

Lemma frac_digits_length (p : nat) (N : Z) : String.length (frac_digits p N) = p.
Proof.
  revert N. induction p as [|p IH]; intros N; simpl; [reflexivity|].
  rewrite length_append, IH. simpl. lia.
Qed.

Lemma round_half_even_nearest (n d : Z) :
  (0 <= n)%Z -> (0 < d)%Z ->
  (0 <= round_half_even n d)%Z /\
  (2 * Z.abs (round_half_even n d * d - n) <= d)%Z /\
  ((2 * Z.abs (round_half_even n d * d - n) = d)%Z ->
   Z.even (round_half_even n d) = true).
Proof.
  intros Hn Hd. unfold round_half_even.
  pose proof (Z.div_mod n d ltac:(lia)) as E.
  pose proof (Z.mod_pos_bound n d Hd) as B.
  pose proof (Z.div_pos n d Hn Hd) as Q.
  set (q := (n / d)%Z) in *. set (r := (n mod d)%Z) in *.
  assert (E1 : (q * d - n = - r)%Z) by lia.
  assert (E2 : ((q + 1) * d - n = d - r)%Z) by lia.
  destruct (Z.compare_spec (2 * r) d) as [C|C|C].
  - destruct (Z.even q) eqn:Ev; [rewrite E1 | rewrite E2].
    + repeat split; auto; lia.
    + repeat split; try lia. intros _. now rewrite Z.even_add, Ev.
  - rewrite E1. repeat split; lia.
  - rewrite E2. repeat split; lia.
Qed.

Lemma dyadic_pos (m : positive) (e : Z) :
  (0 < fst (dyadic m e))%Z /\ (0 < snd (dyadic m e))%Z.
Proof.
  unfold dyadic. destruct (0 <=? e)%Z eqn:E; cbn [fst snd].
  - apply Z.leb_le in E. split; [|lia].
    apply Z.mul_pos_pos; [lia | apply Z.pow_pos_nonneg; lia].
  - apply Z.leb_gt in E. split; [lia | apply Z.pow_pos_nonneg; lia].
Qed.

(** A finite float written with [p] decimals: the sign, the integer part
    and exactly [p] digits of a nearest multiple of [10^-p]. *)
Lemma format_f_finite (always : bool) (p : nat) (x : float) :
  finite x = true ->
  exists N,
    nearest_decimal p x N /\
    format_f always p x = sign_str always (negative x) ++ fixed_point p N.
Proof.
  unfold finite, nearest_decimal, format_f, negative.
  destruct (Prim2SF x) as [s|s| |s m e]; try discriminate; intros _.
  - exists 0%Z. auto.
  - destruct (dyadic_pos m e) as [Hn Hd].
    destruct (dyadic m e) as [n d]. cbn [fst snd] in Hn, Hd.
    exists (round_half_even (n * 10 ^ Z.of_nat p) d). split; [|reflexivity].
    apply round_half_even_nearest; [|exact Hd].
    apply Z.mul_nonneg_nonneg; [lia | apply Z.pow_nonneg; lia].
Qed.

(** C7, as the code has it: in a row where both scores are numeric and the
    baseline is not zero, the delta is the quotient [ratio] in the format
    [.3f], the sign "×", and between brackets [(ratio - 1.0) * 100] in the
    format [+.1f] and a percent sign.  When these floats are finite, each
    is written as its sign ("-", or "+" where the format asks for one), the
    integer part and exactly three digits, respectively one digit, of a
    nearest multiple of 0.001, respectively 0.1. *)
Theorem delta_rendering (base cur : LoadedSet) (key : Key) (x y : float) :
  _numeric_score (ls_get base key) = OK (Some x) ->
  _numeric_score (ls_get cur key) = OK (Some y) ->
  (x =? 0)%float = false ->
  let ratio := (y / x)%float in
  let percent := ((ratio - 1) * 100)%float in
  (exists r, row base cur key = OK r /\
     r_delta r = format_f false 3 ratio ++ "× (" ++ format_f true 1 percent ++ "%)") /\
  (finite ratio = true ->
     exists N, nearest_decimal 3 ratio N /\
       format_f false 3 ratio =
         sign_str false (negative ratio) ++ digits (N / 1000) ++ "." ++ frac_digits 3 N /\
       String.length (frac_digits 3 N) = 3) /\
  (finite percent = true ->
     exists N, nearest_decimal 1 percent N /\
       format_f true 1 percent =
         sign_str true (negative percent) ++ digits (N / 10) ++ "." ++ frac_digits 1 N /\
       String.length (frac_digits 1 N) = 1).
Proof.
  intros Hb Hc Hx ratio percent. split; [|split].
  - destruct (row_numeric base cur key x y Hb Hc) as (r & ds & Hr & Hds & E & _).
    exists r. split; [exact Hr|].
    rewrite delta_str_value, Hx in Hds. injection Hds as <-. exact E.
  - intros F. destruct (format_f_finite false 3 ratio F) as (N & HN & E).
    exists N. split; [exact HN | split; [exact E | apply frac_digits_length]].
  - intros F. destruct (format_f_finite true 1 percent F) as (N & HN & E).
    exists N. split; [exact HN | split; [exact E | apply frac_digits_length]].
Qed.

Lemma delta_rendering_witness :
  (_numeric_score (ls_get ex_base key_A) = OK (Some 100%float) /\
   _numeric_score (ls_get ex_cur key_A) = OK (Some 110%float) /\
   (100 =? 0)%float = false) /\
  let ratio := (110 / 100)%float in
  let percent := ((ratio - 1) * 100)%float in
  (exists r, row ex_base ex_cur key_A = OK r /\
     r_delta r = format_f false 3 ratio ++ "× (" ++ format_f true 1 percent ++ "%)") /\
  (finite ratio = true ->
     exists N, nearest_decimal 3 ratio N /\
       format_f false 3 ratio =
         sign_str false (negative ratio) ++ digits (N / 1000) ++ "." ++ frac_digits 3 N /\
       String.length (frac_digits 3 N) = 3) /\
  (finite percent = true ->
     exists N, nearest_decimal 1 percent N /\
       format_f true 1 percent =
         sign_str true (negative percent) ++ digits (N / 10) ++ "." ++ frac_digits 1 N /\
       String.length (frac_digits 1 N) = 1).
Proof.
  split.
  - repeat split; reflexivity.
  - apply (delta_rendering ex_base ex_cur key_A 100 110); reflexivity.
Defined.

(** The rows of the spec's examples: 100 to 110 ops/s, and 100 to 95. *)
Example delta_rows :
  row ex_base ex_cur key_A =
    OK {| r_bench := "A"; r_params := "n=1"; r_base := "100"; r_cur := "110";
          r_delta := "1.100× (+10.0%)"; r_unit := "ops/s" |} /\
  row ex_base [(key_A, JDict ex_95)] key_A =
    OK {| r_bench := "A"; r_params := "n=1"; r_base := "100"; r_cur := "95";
          r_delta := "0.950× (-5.0%)"; r_unit := "ops/s" |}.
Proof. split; vm_compute; reflexivity. Qed.

(** C7 fails as stated: a current score that is infinite (the JSON number
    1e999) against a baseline of 100 is numeric and the baseline is not
    zero, yet the delta has no decimals; and the sign of a negative
    percentage is the ASCII hyphen of [+.1f], not the minus sign U+2212 of
    the spec's example. *)
Lemma delta_without_decimals :
  row ex_base [(key_A, JDict ex_inf)] key_A =
    OK {| r_bench := "A"; r_params := "n=1"; r_base := "100"; r_cur := "inf";
          r_delta := "inf× (+inf%)"; r_unit := "ops/s" |} /\
  (exists r, row ex_base [(key_A, JDict ex_95)] key_A = OK r /\
             r_delta r = "0.950× (-5.0%)" /\
             r_delta r <> "0.950× (−5.0%)").
Proof.
  split; [vm_compute; reflexivity|].
  eexists. split; [vm_compute; reflexivity|].
  split; [reflexivity|]. cbn [r_delta]. intros H. discriminate H.
Qed.

(** ** Units *)

Lemma str_or_empty (a : string) : str_or a "" = a.
Proof.
  unfold str_or. destruct (String.eqb_spec a "") as [->|]; reflexivity.
Qed.

Lemma numeric_score_has (e : option Entry) (o : option float) :
  _numeric_score e = OK o ->
  has_numeric_score e = match o with Some _ => true | None => false end.
Proof.
  unfold _numeric_score, has_numeric_score.
  destruct e as [[a|l|d]|]; try (intros H; injection H as <-; reflexivity).
  destruct (truthy (JDict d)); cbn [negb andb];
    [|intros H; injection H as <-; reflexivity].
  unfold metric.
  destruct (get_or d "primaryMetric" (JDict [])) as [a|l|md];
    cbn [attr_get bind as_dict]; try discriminate.
  destruct (is_essential_num (get_or md "score" JNull));
    [|intros H; injection H as <-; reflexivity].
  destruct (to_float (get_or md "score" JNull)); cbn [bind]; [|discriminate].
  intros H. injection H as <-. reflexivity.
Qed.

(** C8, as the code has it: in a row that is produced, where [bu] and [cu]
    are the units of the baseline and the current entry as
    [_score_and_unit] gives them (empty when there is none): when both
    scores are numeric (line 104, which is also reached when the baseline
    is zero and the delta is "n/a") the unit is [cu] if the current entry
    declares a scoreUnit at all, be it empty, and [bu] otherwise; in every
    other row (line 107) it is [cu] unless that is empty, and [bu]
    otherwise.  What decides between the two rules is whether both scores
    are numeric, not whether a quotient was taken. *)
Theorem unit_resolution (base cur : LoadedSet) (key : Key) (r : Row) :
  row base cur key = OK r ->
  exists bs bu cs cu,
    _score_and_unit (ls_get base key) = OK (bs, bu) /\
    _score_and_unit (ls_get cur key) = OK (cs, cu) /\
    r_unit r =
      if has_numeric_score (ls_get base key) && has_numeric_score (ls_get cur key)
      then (if declares_unit (ls_get cur key) then cu else bu)
      else str_or cu bu.
Proof.
  intros H. unfold row in H. destruct key as [bench params].
  apply bind_OK_inv in H as ([bs bu] & Hsb & H).
  apply bind_OK_inv in H as ([cs cu] & Hsc & H).
  apply bind_OK_inv in H as (bscore & Hnb & H).
  apply bind_OK_inv in H as (cscore & Hnc & H).
  apply bind_OK_inv in H as ([ds u] & Hdu & H).
  injection H as <-. cbn [r_unit].
  exists bs, bu, cs, cu. split; [exact Hsb|]. split; [exact Hsc|].
  rewrite (numeric_score_has _ _ Hnb), (numeric_score_has _ _ Hnc).
  destruct bscore as [x|]; destruct cscore as [y|]; cbn [andb];
    try (injection Hdu as _ <-; now rewrite str_or_empty).
  rewrite delta_str_value in Hdu. cbn [bind] in Hdu.
  apply bind_OK_inv in Hdu as (u' & Hu & Hdu). injection Hdu as _ <-.
  destruct (numeric_score_inv _ _ Hnc) as (cd & cm & Ec & Tc & Mc & Nc & Fc).
  rewrite Ec in Hsc, Hu |- *.
  rewrite (score_and_unit_numeric _ _ _ Tc Mc Nc Fc) in Hsc. injection Hsc as _ <-.
  unfold numeric_unit in Hu. rewrite Mc in Hu. cbn [attr_get bind] in Hu.
  injection Hu as <-.
  unfold declares_unit, metric. rewrite Mc. cbn [as_dict]. unfold get_or.
  destruct (dict_get cm "scoreUnit"); [reflexivity|].
  cbn [py_str JStr str_atom]. apply str_or_empty.
Qed.

Lemma unit_resolution_witness :
  row ex_base ex_cur key_A =
    OK {| r_bench := "A"; r_params := "n=1"; r_base := "100"; r_cur := "110";
          r_delta := "1.100× (+10.0%)"; r_unit := "ops/s" |} /\
  exists bs bu cs cu,
    _score_and_unit (ls_get ex_base key_A) = OK (bs, bu) /\
    _score_and_unit (ls_get ex_cur key_A) = OK (cs, cu) /\
    "ops/s" =
      if has_numeric_score (ls_get ex_base key_A) && has_numeric_score (ls_get ex_cur key_A)
      then (if declares_unit (ls_get ex_cur key_A) then cu else bu)
      else str_or cu bu.
Proof.
  assert (H : row ex_base ex_cur key_A =
    OK {| r_bench := "A"; r_params := "n=1"; r_base := "100"; r_cur := "110";
          r_delta := "1.100× (+10.0%)"; r_unit := "ops/s" |})
    by (vm_compute; reflexivity).
  split; [exact H|].
  exact (unit_resolution ex_base ex_cur key_A _ H).
Defined.

(** C8 fails as stated: the two current entries declare the same unit (the
    empty string) against the same baseline in ops/s, and the unit of the
    row is empty where both scores are numeric and ops/s where the current
    score is a text: no one rule on the units holds in both rows. *)
Lemma unit_rule_not_uniform :
  dict_get (metric (Some (JDict ex_unit_num))) "scoreUnit" = Some (JStr "") /\
  dict_get (metric (Some (JDict ex_unit_txt))) "scoreUnit" = Some (JStr "") /\
  row [(key_A, JDict ex_unit_base)] [(key_A, JDict ex_unit_num)] key_A =
    OK {| r_bench := "A"; r_params := "n=1"; r_base := "1"; r_cur := "2";
          r_delta := "2.000× (+100.0%)"; r_unit := "" |} /\
  row [(key_A, JDict ex_unit_base)] [(key_A, JDict ex_unit_txt)] key_A =
    OK {| r_bench := "A"; r_params := "n=1"; r_base := "1"; r_cur := "x";
          r_delta := "n/a"; r_unit := "ops/s" |}.
Proof. repeat split; vm_compute; reflexivity. Qed.

(** A baseline of zero in ops/s against a numeric score that declares the
    empty unit: no quotient is taken and the delta is "n/a", yet the unit
    is the one line 104 gives, the declared empty string. *)
Example zero_baseline_unit :
  row [(key_A, JDict ex_zero)] [(key_A, JDict ex_unit_num)] key_A =
    OK {| r_bench := "A"; r_params := "n=1"; r_base := "0"; r_cur := "2";
          r_delta := "n/a"; r_unit := "" |}.
Proof. vm_compute. reflexivity. Qed.

(** * Further properties *)

(** ** The loaded set as a dict *)

Lemma py_same_refl (a : atom) : py_same a a = true.
Proof.
  destruct a as [|b|n|f|s]; unfold py_same, is_nan, py_eq; simpl.
  - reflexivity.
  - apply Z.eqb_refl.
  - apply Z.eqb_refl.
  - destruct (f =? f)%float; reflexivity.
  - apply String.eqb_refl.
Qed.

Lemma params_same_refl (p : list (string * atom)) : params_same p p = true.
Proof.
  induction p as [|x p IH]; simpl; [reflexivity|].
  unfold pair_same. now rewrite String.eqb_refl, py_same_refl, IH.
Qed.

(** A key is the same as itself, a NaN among its values included. *)
Lemma key_same_refl (k : Key) : key_same k k = true.
Proof. unfold key_same. now rewrite py_same_refl, params_same_refl. Qed.

Lemma ls_get_set_same (d : LoadedSet) (k : Key) (e : Entry) :
  ls_get (ls_set d k e) k = Some e.
Proof.
  induction d as [|[k1 e1] d IH]; simpl.
  - now rewrite key_same_refl.
  - destruct (key_same k1 k) eqn:E; simpl; rewrite E; auto.
Qed.

Lemma load_entries_app (l1 l2 : list json) (res : LoadedSet) :
  load_entries (l1 ++ l2)%list res = (r <- load_entries l1 res ;; load_entries l2 r).
Proof.
  revert res. induction l1 as [|e l1 IH]; intros res; simpl; [reflexivity|].
  destruct e as [a|l|d]; auto.
  destruct (entry_key d) as [k|ex]; simpl; auto.
Qed.

(** X1: whatever comes before it in the file, the last record of a file
    that loads is the entry found under its key. *)
Theorem last_record_found (data : list json) (d : list (string * json))
  (res0 res : LoadedSet) :
  load_entries (data ++ [JDict d])%list res0 = OK res ->
  exists k, entry_key d = OK k /\ ls_get res k = Some (JDict d).
Proof.
  rewrite load_entries_app. intros H.
  apply bind_OK_inv in H as (r & _ & H). simpl in H.
  apply bind_OK_inv in H as (k & Hk & H). injection H as <-.
  exists k. split; [exact Hk | apply ls_get_set_same].
Qed.

Lemma last_record_found_witness :
  load_entries ([JDict ex_A_base; JDict ex_B] ++ [JDict ex_A_cur])%list [] =
    OK [(key_A, JDict ex_A_cur); (key_B, JDict ex_B)] /\
  exists k, entry_key ex_A_cur = OK k /\
    ls_get [(key_A, JDict ex_A_cur); (key_B, JDict ex_B)] k = Some (JDict ex_A_cur).
Proof.
  assert (H : load_entries ([JDict ex_A_base; JDict ex_B] ++ [JDict ex_A_cur])%list [] =
              OK [(key_A, JDict ex_A_cur); (key_B, JDict ex_B)]) by reflexivity.
  split; [exact H|].
  exact (last_record_found [JDict ex_A_base; JDict ex_B] ex_A_cur [] _ H).
Defined.

Lemma ls_get_set_str (res : LoadedSet) (k' k : Key) (e : Entry) :
  str_keyed res = true -> is_str_key k' = true -> is_str_key k = true ->
  ls_get (ls_set res k' e) k = if key_same k' k then Some e else ls_get res k.
Proof.
  unfold str_keyed, keys. intros Hres Hk' Hk.
  induction res as [|[k1 e1] res IH]; simpl in *; [reflexivity|].
  apply andb_true_iff in Hres as [Hk1 Hres].
  destruct (key_same k1 k') eqn:E1; simpl.
  - apply key_same_eq in E1; auto. subst k1. now destruct (key_same k' k).
  - rewrite (IH Hres). destruct (key_same k1 k) eqn:E2; [|reflexivity].
    destruct (key_same k' k) eqn:E3; [|reflexivity].
    apply key_same_eq in E2, E3; auto. subst. rewrite key_same_refl in E1.
    discriminate.
Qed.

Lemma load_entries_lookup (data : list json) :
  forall (res0 res : LoadedSet) (k : Key),
  forallb jmh_entry data = true -> str_keyed res0 = true -> is_str_key k = true ->
  load_entries data res0 = OK res ->
  ls_get res k = match last_record data k with
                 | Some e => Some e
                 | None => ls_get res0 k
                 end.
Proof.
  induction data as [|e data IH]; intros res0 res k Hd Hres Hk H; simpl in *.
  - now injection H as <-.
  - apply andb_true_iff in Hd as [He Hd].
    destruct e as [a|l|d].
    + rewrite (IH _ _ k Hd Hres Hk H). now destruct (last_record data k).
    + rewrite (IH _ _ k Hd Hres Hk H). now destruct (last_record data k).
    + destruct (entry_key_str d He) as (k' & Ek & Sk). rewrite Ek in *.
      cbn [bind] in H.
      rewrite (IH _ _ k Hd (ls_set_str_keyed _ _ _ Hres Sk) Hk H).
      rewrite (ls_get_set_str _ _ _ _ Hres Sk Hk).
      destruct (last_record data k); [reflexivity|].
      now destruct (key_same k' k).
Qed.

(** X2: last write wins.  In the set loaded from a file of entries whose
    benchmark and parameter values are strings, the entry found under a key
    is the last record of the file with that key, and none is found when
    the file has no such record. *)
Theorem last_write_wins (data : list json) (res : LoadedSet) (k : Key) :
  forallb jmh_entry data = true -> is_str_key k = true ->
  load_entries data [] = OK res ->
  ls_get res k = last_record data k.
Proof.
  intros Hd Hk H. rewrite (load_entries_lookup data [] res k Hd eq_refl Hk H).
  now destruct (last_record data k).
Qed.

Lemma last_write_wins_witness :
  (forallb jmh_entry ex_twice = true /\ is_str_key key_A = true /\
   load_entries ex_twice [] = OK [(key_A, JDict ex_A_cur); (key_B, JDict ex_B)]) /\
  ls_get [(key_A, JDict ex_A_cur); (key_B, JDict ex_B)] key_A = last_record ex_twice key_A.
Proof.
  split.
  - repeat split; reflexivity.
  - apply (last_write_wins ex_twice _ key_A); reflexivity.
Defined.

Lemma ls_set_keys_in (d : LoadedSet) (k : Key) (e : Entry) (x : Key) :
  In x (keys (ls_set d k e)) -> In x (keys d) \/ x = k.
Proof.
  induction d as [|[k1 e1] d IH]; simpl.
  - intros [<-|[]]. auto.
  - destruct (key_same k1 k); simpl; intros [H|H]; auto.
    apply IH in H as [H|H]; auto.
Qed.

Lemma ls_set_distinct (d : LoadedSet) (k : Key) (e : Entry) :
  distinct_keys d -> distinct_keys (ls_set d k e).
Proof.
  unfold distinct_keys. induction d as [|[k1 e1] d IH]; intros H; simpl.
  - constructor; constructor.
  - inversion H as [|a l Ha Hl]; subst. destruct (key_same k1 k) eqn:E.
    + constructor; [exact Ha | exact Hl].
    + constructor; [|apply IH; exact Hl].
      rewrite Forall_forall. intros [k2 e2] Hin. cbn [fst].
      assert (Hk : In k2 (keys (ls_set d k e))).
      { apply (in_map fst) in Hin. exact Hin. }
      apply ls_set_keys_in in Hk as [Hk| ->]; [|exact E].
      unfold keys in Hk. apply in_map_iff in Hk as ([k3 e3] & Heq & Hin3).
      simpl in Heq. subst k3. rewrite Forall_forall in Ha. apply (Ha _ Hin3).
Qed.

Lemma ls_set_In (d : LoadedSet) (k : Key) (e : Entry) (k1 : Key) (e1 : Entry) :
  In (k1, e1) (ls_set d k e) ->
  In (k1, e1) d \/ (e1 = e /\ key_same k1 k = true).
Proof.
  induction d as [|[k2 e2] d IH]; simpl.
  - intros [H|[]]. injection H as <- <-. right. split; [reflexivity|].
    apply key_same_refl.
  - destruct (key_same k2 k) eqn:E; simpl; intros [H|H].
    + injection H as <- <-. right. auto.
    + left. now right.
    + left. now left.
    + apply IH in H as [H|H]; auto.
Qed.

Lemma load_entries_inv (data : list json) :
  forall res0 res : LoadedSet,
  load_entries data res0 = OK res -> distinct_keys res0 ->
  distinct_keys res /\
  forall k e, In (k, e) res ->
    In (k, e) res0 \/
    exists d k', e = JDict d /\ In e data /\ entry_key d = OK k' /\
                 key_same k k' = true.
Proof.
  induction data as [|x data IH]; intros res0 res H Hd; simpl in H.
  - injection H as <-. auto.
  - destruct x as [a|l|d].
    + destruct (IH _ _ H Hd) as (D & I). split; [exact D|].
      intros k e Hin. destruct (I k e Hin) as [?|(d & k' & ? & ? & ?)]; auto.
      right. exists d, k'. simpl. auto.
    + destruct (IH _ _ H Hd) as (D & I). split; [exact D|].
      intros k e Hin. destruct (I k e Hin) as [?|(d' & k' & ? & ? & ?)]; auto.
      right. exists d', k'. simpl. auto.
    + apply bind_OK_inv in H as (key & Hk & H).
      destruct (IH _ _ H (ls_set_distinct _ key (JDict d) Hd)) as (D & I).
      split; [exact D|].
      intros k e Hin. destruct (I k e Hin) as [Hs|(d' & k' & ? & ? & ?)].
      * apply ls_set_In in Hs as [Hs|[-> Hs]]; auto.
        right. exists d, key. simpl. auto.
      * right. exists d', k'. simpl. auto.
Qed.

Lemma distinct_keys_NoDup (d : LoadedSet) : distinct_keys d -> NoDup (keys d).
Proof.
  unfold distinct_keys. induction 1 as [|a l Ha _ IH]; simpl; constructor; auto.
  intros Hin. unfold keys in Hin. apply in_map_iff in Hin as (b & Heq & Hb).
  rewrite Forall_forall in Ha. specialize (Ha _ Hb).
  rewrite Heq, key_same_refl in Ha. discriminate.
Qed.

(** X3: the set loaded from a file is a dict of records of the file: no
    two of its entries have the same key, and each entry is a record of
    the file, kept under a key that is the same as its own. *)
Theorem loaded_set_invariant (data : list json) (res : LoadedSet) :
  load_entries data [] = OK res ->
  distinct_keys res /\ NoDup (keys res) /\
  forall k e, In (k, e) res ->
    exists d k', e = JDict d /\ In e data /\ entry_key d = OK k' /\
                 key_same k k' = true.
Proof.
  intros H.
  destruct (load_entries_inv data [] res H) as (D & I); [constructor|].
  split; [exact D|]. split; [now apply distinct_keys_NoDup|].
  intros k e Hin. destruct (I k e Hin) as [[]|Hex]. exact Hex.
Qed.

Lemma loaded_set_invariant_witness :
  load_entries ex_twice [] = OK [(key_A, JDict ex_A_cur); (key_B, JDict ex_B)] /\
  distinct_keys [(key_A, JDict ex_A_cur); (key_B, JDict ex_B)] /\
  NoDup (keys [(key_A, JDict ex_A_cur); (key_B, JDict ex_B)]) /\
  forall k e, In (k, e) [(key_A, JDict ex_A_cur); (key_B, JDict ex_B)] ->
    exists d k', e = JDict d /\ In e ex_twice /\ entry_key d = OK k' /\
                 key_same k k' = true.
Proof.
  assert (H : load_entries ex_twice [] =
              OK [(key_A, JDict ex_A_cur); (key_B, JDict ex_B)]) by reflexivity.
  split; [exact H|].
  exact (loaded_set_invariant ex_twice _ H).
Defined.

(** X4: the elements of the file that are no dicts are skipped: the file
    loads as the file without them does. *)
Theorem non_records_skipped (data : list json) (res : LoadedSet) :
  load_entries data res = load_entries (filter is_record data) res.
Proof.
  revert res. induction data as [|e data IH]; intros res; simpl; [reflexivity|].
  destruct e as [a|l|d]; simpl; auto.
  destruct (entry_key d) as [k|ex]; simpl; auto.
Qed.

(** ** The key of an entry *)

Lemma forallb_perm {A : Type} (f : A -> bool) (l l' : list A) :
  Permutation l l' -> forallb f l = true -> forallb f l' = true.
Proof.
  rewrite !forallb_forall. intros Hp H x Hx. apply H.
  eapply Permutation_in; [symmetry; exact Hp | exact Hx].
Qed.

Lemma hash_items_atoms (items : list (string * json)) (ps : list (string * atom)) :
  mapM (fun kv => v <- hashable (snd kv) ;; OK (fst kv, v)) items = OK ps ->
  items = map (fun p => (fst p, JAtom (snd p))) ps.
Proof.
  revert ps. induction items as [|[n v] items IH]; intros ps H; simpl in H.
  - now injection H as <-.
  - apply bind_OK_inv in H as ([n' a] & Hx & H).
    apply bind_OK_inv in H as (ps' & Hps & H). injection H as <-.
    destruct v as [a'| |]; try discriminate. simpl in Hx. injection Hx as <- <-.
    simpl. f_equal. now apply IH.
Qed.

Lemma hash_items_total (items : list (string * json)) :
  forallb (fun kv => is_atom (snd kv)) items = true ->
  exists ps, mapM (fun kv => v <- hashable (snd kv) ;; OK (fst kv, v)) items = OK ps.
Proof.
  induction items as [|[n v] items IH]; simpl; [eauto|].
  rewrite andb_true_iff. intros [Hv Hi]. destruct v as [a| |]; try discriminate.
  destruct (IH Hi) as (ps & ->). simpl. eauto.
Qed.

Lemma atoms_of_map (ps : list (string * atom)) :
  forallb (fun kv => is_atom (snd kv)) (map (fun p => (fst p, JAtom (snd p))) ps) = true.
Proof. induction ps as [|p ps IH]; simpl; auto. Qed.

Lemma entry_key_hashable (d : list (string * json)) :
  (exists k, entry_key d = OK k) <-> hashable_entry (JDict d) = true.
Proof.
  cbn [hashable_entry]. unfold entry_key.
  destruct (sorted_total item_lt (entry_params d)) as (items & Es & Hp).
  { intros a b. unfold item_lt. eauto. }
  rewrite Es. cbn [bind]. split.
  - intros (k & H).
    apply bind_OK_inv in H as (b & Hb & H).
    apply bind_OK_inv in H as (ps & Hps & _).
    apply andb_true_iff. split.
    + destruct (get_or d "benchmark" (JStr "")); [reflexivity | discriminate..].
    + apply (forallb_perm _ items); [now symmetry|].
      rewrite (hash_items_atoms _ _ Hps). apply atoms_of_map.
  - rewrite andb_true_iff. intros [Hb Hi].
    destruct (get_or d "benchmark" (JStr "")) as [a| |]; try discriminate.
    cbn [hashable bind].
    destruct (hash_items_total items) as (ps & ->).
    { now apply (forallb_perm _ (entry_params d)). }
    simpl. eauto.
Qed.

Lemma load_entries_hashable (data : list json) (res : LoadedSet) :
  (exists res', load_entries data res = OK res') <->
  forallb hashable_entry data = true.
Proof.
  revert res. induction data as [|e data IH]; intros res; simpl.
  - split; eauto.
  - destruct e as [a|l|d]; try (rewrite IH; reflexivity).
    rewrite andb_true_iff, <- entry_key_hashable. split.
    + intros (res' & H). apply bind_OK_inv in H as (k & Hk & H).
      split; [eauto|]. apply (IH (ls_set res k (JDict d))). eauto.
    + intros [(k & Hk) H]. rewrite Hk. cbn [bind]. now apply IH.
Qed.

(** X5: the elements of a parsed list load unless, and only unless, some
    record has a benchmark or a parameter value that is a list or a dict;
    then the loader raises [TypeError]. *)
Theorem load_succeeds_iff_hashable (data : list json) (res : LoadedSet) :
  ((exists res', load_entries data res = OK res') <->
   forallb hashable_entry data = true) /\
  (load_entries data res = Raise TypeError <->
   forallb hashable_entry data = false).
Proof.
  split; [apply load_entries_hashable|].
  pose proof (load_entries_hashable data res) as [H1 H2].
  destruct (load_entries data res) as [res'|ex] eqn:E.
  - rewrite H1 by eauto. split; discriminate.
  - apply load_entries_raises in E as ->. split; [|reflexivity].
    intros _. destruct (forallb hashable_entry data); [|reflexivity].
    destruct H2 as (res' & H2); [reflexivity | discriminate].
Qed.

Lemma NoDup_fst_inj {A B : Type} (l : list (A * B)) (x y : A * B) :
  NoDup (map fst l) -> In x l -> In y l -> fst x = fst y -> x = y.
Proof.
  induction l as [|z l IH]; simpl; intros Hnd Hx Hy E; [contradiction|].
  inversion Hnd as [|? ? Hz Hnd']; subst.
  destruct Hx as [->|Hx]; destruct Hy as [->|Hy]; auto.
  - exfalso. apply Hz. rewrite E. now apply in_map.
  - exfalso. apply Hz. rewrite <- E. now apply in_map.
Qed.

Lemma item_lt_compare (x y : string * json) :
  item_lt x y = OK (is_lt (String.compare (fst x) (fst y))).
Proof. unfold item_lt. now rewrite ltb_is_lt. Qed.

Lemma strongly_sorted_map {A B : Type} (g : A -> B) (R : B -> B -> Prop)
  (l : list A) :
  StronglySorted R (map g l) -> StronglySorted (fun x y => R (g x) (g y)) l.
Proof.
  induction l as [|a l IH]; simpl; intros H; [constructor|].
  inversion H as [|? ? Hs Ha]; subst. constructor; auto.
  rewrite Forall_forall in *. intros x Hx. apply Ha. now apply in_map.
Qed.

(** X6: the key made of an entry holds the benchmark and the items of the
    params, each once, in strictly ascending order of the parameter names. *)
Theorem entry_key_sorted (d : list (string * json)) (b : atom)
  (ps : list (string * atom)) :
  NoDup (map fst (entry_params d)) ->
  entry_key d = OK (b, ps) ->
  JAtom b = get_or d "benchmark" (JStr "") /\
  Permutation (entry_params d) (map (fun p => (fst p, JAtom (snd p))) ps) /\
  StronglySorted (fun x y => String.compare (fst x) (fst y) = Lt) ps.
Proof.
  intros Hnd H. unfold entry_key in H.
  destruct (sorted_spec item_lt (fun x => In x (entry_params d))
              (fun x y => String.compare (fst x) (fst y))
              (fun x y _ _ => item_lt_compare x y)
              (fun x y Hx Hy E =>
                 NoDup_fst_inj _ x y Hnd Hx Hy (String.compare_eq_iff _ _ E))
              (fun x y => String.compare_antisym (fst y) (fst x))
              (fun x y z => string_compare_trans (fst x) (fst y) (fst z))
              (entry_params d))
    as (items & Es & Hp & Hs).
  { rewrite Forall_forall. auto. }
  { eapply NoDup_map_inv. exact Hnd. }
  rewrite Es in H. cbn [bind] in H.
  apply bind_OK_inv in H as (b' & Hb & H).
  apply bind_OK_inv in H as (ps' & Hps & H). injection H as <- <-.
  apply hash_items_atoms in Hps. subst items. repeat split.
  - destruct (get_or d "benchmark" (JStr "")); try discriminate.
    simpl in Hb. now injection Hb as <-.
  - exact Hp.
  - apply strongly_sorted_map in Hs. exact Hs.
Qed.

Lemma entry_key_sorted_witness :
  (NoDup (map fst (entry_params ex_qp)) /\
   entry_key ex_qp = OK (PyStr "A", [("p", PyStr "1"); ("q", PyStr "2")])) /\
  JAtom (PyStr "A") = get_or ex_qp "benchmark" (JStr "") /\
  Permutation (entry_params ex_qp)
    (map (fun p => (fst p, JAtom (snd p))) [("p", PyStr "1"); ("q", PyStr "2")]) /\
  StronglySorted (fun x y => String.compare (fst x) (fst y) = Lt)
    [("p", PyStr "1"); ("q", PyStr "2")].
Proof.
  assert (Hnd : NoDup (map fst (entry_params ex_qp))).
  { repeat constructor; simpl; intuition discriminate. }
  split; [split; [exact Hnd | reflexivity]|].
  apply (entry_key_sorted ex_qp); [exact Hnd | reflexivity].
Defined.

(** X7: the order in which a record lists its params does not matter: two
    records with the same benchmark and the same params, listed in any two
    orders, have the same key. *)
Theorem entry_key_params_order (e e' : list (string * json)) :
  get_or e "benchmark" (JStr "") = get_or e' "benchmark" (JStr "") ->
  NoDup (map fst (entry_params e)) ->
  Permutation (entry_params e) (entry_params e') ->
  entry_key e = entry_key e'.
Proof.
  intros Hb Hnd Hp. unfold entry_key. rewrite Hb.
  rewrite (sorted_permutation item_lt (fun x => In x (entry_params e))
             (fun x y => String.compare (fst x) (fst y))
             (fun x y _ _ => item_lt_compare x y)
             (fun x y Hx Hy E =>
                NoDup_fst_inj _ x y Hnd Hx Hy (String.compare_eq_iff _ _ E))
             (fun x y => String.compare_antisym (fst y) (fst x))
             (fun x y z => string_compare_trans (fst x) (fst y) (fst z))
             (entry_params e) (entry_params e')); auto.
  - rewrite Forall_forall. auto.
  - eapply NoDup_map_inv. exact Hnd.
Qed.

Lemma entry_key_params_order_witness :
  (get_or ex_pq "benchmark" (JStr "") = get_or ex_qp "benchmark" (JStr "") /\
   NoDup (map fst (entry_params ex_pq)) /\
   Permutation (entry_params ex_pq) (entry_params ex_qp)) /\
  entry_key ex_pq = entry_key ex_qp.
Proof.
  assert (Hnd : NoDup (map fst (entry_params ex_pq))).
  { repeat constructor; simpl; intuition discriminate. }
  assert (Hp : Permutation (entry_params ex_pq) (entry_params ex_qp)).
  { apply perm_swap. }
  split; [split; [reflexivity | split; [exact Hnd | exact Hp]]|].
  apply (entry_key_params_order ex_pq ex_qp); [reflexivity | exact Hnd | exact Hp].
Defined.

(** ** Scores and rows *)

Lemma score_helpers_raise (e : option Entry) (ex : exn) :
  _score_and_unit e = Raise ex <-> _numeric_score e = Raise ex.
Proof.
  unfold _score_and_unit, _numeric_score.
  destruct e as [[a|l|d]|]; try (split; discriminate).
  - destruct (truthy (JAtom a)); simpl; split; discriminate.
  - destruct (truthy (JList l)); simpl; split; discriminate.
  - destruct (truthy (JDict d)); cbn [negb]; [|split; discriminate].
    destruct (get_or d "primaryMetric" (JDict [])) as [a|l|md];
      cbn [attr_get bind];
      try (split; intros H; injection H as <-; reflexivity).
    destruct (is_essential_num (get_or md "score" JNull));
      [|split; discriminate].
    destruct (to_float (get_or md "score" JNull)); cbn [bind];
      split; intros H; try discriminate; injection H as <-; reflexivity.
Qed.

Lemma score_returns_numeric (e : option Entry) (p : string * string) :
  _score_and_unit e = OK p -> exists o, _numeric_score e = OK o.
Proof.
  intros H. destruct (_numeric_score e) as [o|ex] eqn:E; [eauto|].
  apply score_helpers_raise in E. congruence.
Qed.

(** X8: the two helpers go together: they raise on the same entries, with
    the same exception; where [_numeric_score] returns a number,
    [_score_and_unit] shows that number in six significant digits; and
    where [_score_and_unit] returns, so does [_numeric_score]. *)
Theorem score_helpers_agree (e : option Entry) :
  (forall ex, _score_and_unit e = Raise ex <-> _numeric_score e = Raise ex) /\
  (forall x, _numeric_score e = OK (Some x) ->
     exists unit, _score_and_unit e = OK (format_g 6 x, unit)) /\
  (forall p, _score_and_unit e = OK p -> exists o, _numeric_score e = OK o).
Proof.
  split; [|split].
  - intros ex. apply score_helpers_raise.
  - intros x H.
    destruct (numeric_score_inv _ _ H) as (d & md & -> & T & M & N & F).
    rewrite (score_and_unit_numeric _ _ _ T M N F). eauto.
  - apply score_returns_numeric.
Qed.

Lemma well_shaped_returns (e : option Entry) :
  well_shaped e = true <-> exists p, _score_and_unit e = OK p.
Proof.
  unfold well_shaped, _score_and_unit.
  destruct e as [[a|l|d]|]; try (split; eauto; fail).
  - destruct (truthy (JAtom a)); simpl; split; eauto.
  - destruct (truthy (JList l)); simpl; split; eauto.
  - destruct (truthy (JDict d)); cbn [negb]; [|split; eauto].
    destruct (get_or d "primaryMetric" (JDict [])) as [a|l|md];
      cbn [attr_get bind]; try (split; [discriminate | intros (p & H); discriminate]).
    destruct (get_or md "score" JNull) as [[|b|n|f|s]|l|d'];
      simpl; try (split; eauto; fail).
    unfold fits_float. destruct (float_of_Z n); simpl; split; eauto;
      try discriminate. intros (p & H). discriminate.
Qed.

Lemma row_returns (base cur : LoadedSet) (key : Key) (pb pc : string * string) :
  _score_and_unit (ls_get base key) = OK pb ->
  _score_and_unit (ls_get cur key) = OK pc ->
  exists r, row base cur key = OK r.
Proof.
  intros Hb Hc.
  destruct (score_returns_numeric _ _ Hb) as (ob & Nb).
  destruct (score_returns_numeric _ _ Hc) as (oc & Nc).
  destruct ob as [x|]; [destruct oc as [y|]|].
  - destruct (row_numeric base cur key x y Nb Nc) as (r & _ & Hr & _). eauto.
  - unfold row. destruct key as [bench params]. rewrite Hb, Hc, Nb, Nc.
    destruct pb, pc. simpl. eauto.
  - unfold row. destruct key as [bench params]. rewrite Hb, Hc, Nb, Nc.
    destruct pb, pc. simpl. eauto.
Qed.

(** X9: a row is produced exactly when both entries are well shaped: each
    is absent, empty, or has a primary metric that is a dict (or none at
    all) and a score that, if an integer, fits a float. *)
Theorem row_returns_iff (base cur : LoadedSet) (key : Key) :
  (exists r, row base cur key = OK r) <->
  well_shaped (ls_get base key) = true /\ well_shaped (ls_get cur key) = true.
Proof.
  rewrite !well_shaped_returns. split.
  - intros (r & H). unfold row in H. destruct key as [bench params].
    apply bind_OK_inv in H as ([bs bu] & Hb & H).
    apply bind_OK_inv in H as ([cs cu] & Hc & _). eauto.
  - intros [(pb & Hb) (pc & Hc)]. eapply row_returns; eauto.
Qed.

(** X10: a key that the baseline does not have gives a row with the em
    dash for the baseline score, no delta, and the unit of the current
    entry. *)
Theorem row_without_baseline (base cur : LoadedSet) (key : Key) (cs cu : string) :
  ls_get base key = None ->
  _score_and_unit (ls_get cur key) = OK (cs, cu) ->
  row base cur key =
    OK {| r_bench := str_atom (fst key); r_params := params_str (snd key);
          r_base := EM_DASH; r_cur := cs; r_delta := "n/a"; r_unit := cu |}.
Proof.
  intros Hb Hc. destruct (score_returns_numeric _ _ Hc) as (oc & Nc).
  unfold row. destruct key as [bench params]. rewrite Hb, Hc, Nc. simpl.
  now rewrite !str_or_empty.
Qed.

Lemma row_without_baseline_witness :
  (ls_get [] key_A = None /\
   _score_and_unit (ls_get ex_cur key_A) = OK ("110", "ops/s")) /\
  row [] ex_cur key_A =
    OK {| r_bench := str_atom (fst key_A); r_params := params_str (snd key_A);
          r_base := EM_DASH; r_cur := "110"; r_delta := "n/a"; r_unit := "ops/s" |}.
Proof.
  split; [split; reflexivity|].
  apply (row_without_baseline [] ex_cur key_A); reflexivity.
Defined.

(** X11: a key that the current set does not have gives a row with the
    baseline score, the em dash for the current score, no delta, and the
    unit of the baseline entry. *)
Theorem row_without_current (base cur : LoadedSet) (key : Key) (bs bu : string) :
  ls_get cur key = None ->
  _score_and_unit (ls_get base key) = OK (bs, bu) ->
  row base cur key =
    OK {| r_bench := str_atom (fst key); r_params := params_str (snd key);
          r_base := bs; r_cur := EM_DASH; r_delta := "n/a"; r_unit := bu |}.
Proof.
  intros Hc Hb. destruct (score_returns_numeric _ _ Hb) as (ob & Nb).
  unfold row. destruct key as [bench params]. rewrite Hb, Hc, Nb. simpl.
  destruct ob; simpl; now rewrite str_or_empty.
Qed.

Lemma row_without_current_witness :
  (ls_get ex_cur key_B = None /\
   _score_and_unit (ls_get ex_base key_B) = OK ("3", "s")) /\
  row ex_base ex_cur key_B =
    OK {| r_bench := str_atom (fst key_B); r_params := params_str (snd key_B);
          r_base := "3"; r_cur := EM_DASH; r_delta := "n/a"; r_unit := "s" |}.
Proof.
  split; [split; reflexivity|].
  apply (row_without_current ex_base ex_cur key_B); reflexivity.
Defined.

(** ** The comparison and the driver on well-formed input *)

Lemma mapM_returns {A B : Type} (f : A -> result B) (l : list A) :
  (forall x, In x l -> exists y, f x = OK y) -> exists ys, mapM f l = OK ys.
Proof.
  induction l as [|x l IH]; intros H; simpl; [eauto|].
  destruct (H x (or_introl eq_refl)) as (y & ->).
  destruct IH as (ys & ->); [intros z Hz; apply H; now right|].
  simpl. eauto.
Qed.

Lemma ls_get_well_shaped (d : LoadedSet) (k : Key) :
  well_shaped_set d = true -> well_shaped (ls_get d k) = true.
Proof.
  unfold well_shaped_set. induction d as [|[k' e] d IH]; simpl; [reflexivity|].
  rewrite andb_true_iff. intros [He Hd]. destruct (key_same k' k); auto.
Qed.

Lemma compare_returns_str_keys (set_iter : list Key -> list Key)
  (base cur : LoadedSet) (title : string) (note : option string) :
  iteration_order set_iter ->
  str_keyed base = true -> str_keyed cur = true ->
  well_shaped_set base = true -> well_shaped_set cur = true ->
  exists md, compare_to_markdown set_iter base cur title note = OK md.
Proof.
  intros Hit Hb Hc Wb Wc.
  destruct (sorted_keys_spec set_iter base cur Hit Hb Hc) as (ks & E & _).
  unfold compare_to_markdown. rewrite E. cbn [bind].
  destruct (mapM_returns (row base cur) ks) as (rows & ->).
  - intros k _.
    destruct (proj1 (well_shaped_returns _) (ls_get_well_shaped base k Wb)) as (pb & Pb).
    destruct (proj1 (well_shaped_returns _) (ls_get_well_shaped cur k Wc)) as (pc & Pc).
    eapply row_returns; eauto.
  - simpl. eauto.
Qed.

(** X12: the comparison returns a report for every two sets whose keys are
    made of strings and whose entries are well shaped. *)
Theorem comparison_returns (set_iter : list Key -> list Key) (base cur : LoadedSet)
  (title : string) (note : option string) :
  iteration_order set_iter ->
  str_keyed base = true -> str_keyed cur = true ->
  well_shaped_set base = true -> well_shaped_set cur = true ->
  exists md, compare_to_markdown set_iter base cur title note = OK md.
Proof.
  exact (compare_returns_str_keys set_iter base cur title note).
Qed.

Lemma comparison_returns_witness :
  (iteration_order (@rev Key) /\ str_keyed ex_base = true /\ str_keyed ex_cur = true /\
   well_shaped_set ex_base = true /\ well_shaped_set ex_cur = true) /\
  exists md, compare_to_markdown (@rev Key) ex_base ex_cur "T" None = OK md.
Proof.
  split.
  - split; [exact iteration_order_rev | repeat split; reflexivity].
  - apply (comparison_returns (@rev Key) ex_base ex_cur "T" None);
      [exact iteration_order_rev | reflexivity..].
Defined.

Lemma load_jmh_file (fs : string -> read_outcome) (path : string) (w : world) :
  jmh_file (fs path) = true ->
  exists res, fst (load fs path w) = OK res /\
              str_keyed res = true /\ well_shaped_set res = true.
Proof.
  unfold load, jmh_file.
  destruct (fs path) as [|e|msg|[a|l|d]]; try discriminate;
    try (intros _; exists []; repeat split; reflexivity).
  rewrite andb_true_iff. intros [Hj Hw].
  destruct (load_entries_str_keyed l [] Hj eq_refl) as (res & E & Hs).
  exists res. cbn [fst]. repeat split; auto.
  destruct (load_entries_inv l [] res E) as (_ & I); [constructor|].
  unfold well_shaped_set. apply forallb_forall. intros [k e] Hin.
  destruct (I k e Hin) as [[]|(d & k' & -> & Hd & _)].
  rewrite forallb_forall in Hw. cbn [snd]. now apply Hw.
Qed.

(** [main] once both sources have loaded: nothing was written to the
    standard output so far, and what follows is the test of line 139 and
    the comparison. *)
Lemma main_loaded (fs : string -> read_outcome) (set_iter : list Key -> list Key)
  (args : Namespace) (w w1 w2 : world) (base cur : LoadedSet) :
  load fs (baseline args) w = (OK base, w1) ->
  load fs (current args) w1 = (OK cur, w2) ->
  stdout w2 = stdout w /\
  main fs set_iter args w =
    if is_empty base && is_empty cur
    then (OK 1%Z, eprint no_data_message w2)
    else match compare_to_markdown set_iter base cur (title args) (note args) with
         | Raise e => (Raise e, w2)
         | OK md => (OK 0%Z, print md w2)
         end.
Proof.
  intros Hb Hc. split.
  - pose proof (load_stdout fs (baseline args) w) as E1.
    pose proof (load_stdout fs (current args) w1) as E2.
    rewrite Hb in E1. rewrite Hc in E2. simpl in E1, E2. congruence.
  - unfold main. rewrite Hb, Hc. reflexivity.
Qed.

Lemma load_raises (fs : string -> read_outcome) (path : string) (w : world)
  (ex : exn) :
  fst (load fs path w) = Raise ex ->
  ex = SystemExit 2 \/ ex = TypeError \/ ex = AttributeError \/
  ex = OverflowError \/ exists e, ex = ReadError e.
Proof.
  unfold load.
  destruct (fs path) as [|e|msg|[a|l|d]]; simpl; intros H; try discriminate.
  - injection H as <-. eauto 6.
  - injection H as <-. auto.
  - apply load_entries_raises in H. auto.
Qed.

(** What [main] comes to: it raises and prints no report, or returns 1 and
    prints no report, or returns 0 and prints the report of the comparison
    of the two loaded sets, and nothing else. *)
Lemma main_cases (fs : string -> read_outcome) (set_iter : list Key -> list Key)
  (args : Namespace) (w : world) :
  (exists ex, fst (main fs set_iter args w) = Raise ex /\
              stdout (snd (main fs set_iter args w)) = stdout w /\
              (ex = SystemExit 2 \/ ex = TypeError \/ ex = AttributeError \/
               ex = OverflowError \/ exists e, ex = ReadError e)) \/
  (fst (main fs set_iter args w) = OK 1%Z /\
   stdout (snd (main fs set_iter args w)) = stdout w) \/
  (exists base cur w1 w2 md,
     load fs (baseline args) w = (OK base, w1) /\
     load fs (current args) w1 = (OK cur, w2) /\
     compare_to_markdown set_iter base cur (title args) (note args) = OK md /\
     main fs set_iter args w = (OK 0%Z, print md w2) /\
     stdout (print md w2) = (stdout w ++ [md])%list).
Proof.
  destruct (load fs (baseline args) w) as [[base|e] w1] eqn:L1.
  2:{ left. exists e. unfold main. rewrite L1. cbn [fst snd].
      pose proof (load_stdout fs (baseline args) w) as O1.
      pose proof (load_raises fs (baseline args) w e) as R1.
      rewrite L1 in O1, R1. auto. }
  destruct (load fs (current args) w1) as [[cur|e] w2] eqn:L2.
  2:{ left. exists e. unfold main. rewrite L1, L2. cbn [fst snd].
      pose proof (load_stdout fs (baseline args) w) as O1.
      pose proof (load_stdout fs (current args) w1) as O2.
      pose proof (load_raises fs (current args) w1 e) as R2.
      rewrite L1 in O1. rewrite L2 in O2, R2. cbn [fst snd] in *.
      repeat split; auto. congruence. }
  destruct (main_loaded fs set_iter args w w1 w2 base cur L1 L2) as (O & M).
  rewrite M.
  destruct (is_empty base && is_empty cur).
  { right. left. auto. }
  destruct (compare_to_markdown set_iter base cur (title args) (note args))
    as [md|e] eqn:C; cbn [fst snd].
  - right. right. exists base, cur, w1, w2, md.
    repeat split; auto. simpl. now rewrite O.
  - left. exists e. repeat split; auto.
    apply compare_raises in C as [C|[C|C]]; auto.
Qed.

(** X13: on two sources that are each absent or a parsed file of JMH
    entries (string benchmark and parameter values, well-shaped metrics),
    both sources load and [main] never raises: when both loaded sets are
    empty it returns 1 and prints no report; otherwise the comparison of
    the two loaded sets returns a report, and [main] prints that report,
    and nothing else, and returns 0. *)
Theorem main_on_jmh_files (fs : string -> read_outcome)
  (set_iter : list Key -> list Key) (args : Namespace) (w : world) :
  iteration_order set_iter ->
  jmh_file (fs (baseline args)) = true -> jmh_file (fs (current args)) = true ->
  exists base cur w1 w2,
    load fs (baseline args) w = (OK base, w1) /\
    load fs (current args) w1 = (OK cur, w2) /\
    ((base = [] /\ cur = [] /\
      fst (main fs set_iter args w) = OK 1%Z /\
      stdout (snd (main fs set_iter args w)) = stdout w) \/
     (~ (base = [] /\ cur = []) /\
      exists md,
        compare_to_markdown set_iter base cur (title args) (note args) = OK md /\
        main fs set_iter args w = (OK 0%Z, print md w2) /\
        stdout (snd (main fs set_iter args w)) = (stdout w ++ [md])%list)).
Proof.
  intros Hit Jb Jc.
  destruct (load_jmh_file fs (baseline args) w Jb) as (base & Lb & Sb & Wb).
  destruct (load fs (baseline args) w) as [rb w1] eqn:L1. cbn [fst] in Lb. subst rb.
  destruct (load_jmh_file fs (current args) w1 Jc) as (cur & Lc & Sc & Wc).
  destruct (load fs (current args) w1) as [rc w2] eqn:L2. cbn [fst] in Lc. subst rc.
  exists base, cur, w1, w2. split; [reflexivity|]. split; [exact L2|].
  destruct (main_loaded fs set_iter args w w1 w2 base cur L1 L2) as (O & M).
  rewrite M.
  destruct (is_empty base && is_empty cur) eqn:E.
  - left. apply andb_true_iff in E as [E1 E2].
    destruct base; [|discriminate]. destruct cur; [|discriminate].
    repeat split; auto.
  - right. split.
    + intros [-> ->]. discriminate E.
    + destruct (compare_returns_str_keys set_iter base cur (title args) (note args)
                  Hit Sb Sc Wb Wc) as (md & C).
      exists md. rewrite C. cbn [snd]. repeat split; auto.
      simpl. now rewrite O.
Qed.

Lemma main_on_jmh_files_witness :
  (iteration_order (@rev Key) /\ jmh_file (fs_ex (baseline ex_args)) = true /\
   jmh_file (fs_ex (current ex_args)) = true) /\
  exists base cur w1 w2,
    load fs_ex (baseline ex_args) w0 = (OK base, w1) /\
    load fs_ex (current ex_args) w1 = (OK cur, w2) /\
    ((base = [] /\ cur = [] /\
      fst (main fs_ex (@rev Key) ex_args w0) = OK 1%Z /\
      stdout (snd (main fs_ex (@rev Key) ex_args w0)) = stdout w0) \/
     (~ (base = [] /\ cur = []) /\
      exists md,
        compare_to_markdown (@rev Key) base cur (title ex_args) (note ex_args) = OK md /\
        main fs_ex (@rev Key) ex_args w0 = (OK 0%Z, print md w2) /\
        stdout (snd (main fs_ex (@rev Key) ex_args w0)) = (stdout w0 ++ [md])%list)).
Proof.
  split.
  - split; [exact iteration_order_rev | split; reflexivity].
  - apply (main_on_jmh_files fs_ex (@rev Key) ex_args w0);
      [exact iteration_order_rev | reflexivity | reflexivity].
Defined.

(** X14: whatever the sources hold, the process ends with status 0, 1 or
    2. *)
Theorem exit_status_range (fs : string -> read_outcome)
  (set_iter : list Key -> list Key) (args : Namespace) (w : world) :
  exit_status (fst (main fs set_iter args w)) = 0%Z \/
  exit_status (fst (main fs set_iter args w)) = 1%Z \/
  exit_status (fst (main fs set_iter args w)) = 2%Z.
Proof.
  destruct (main_cases fs set_iter args w)
    as [(ex & -> & _ & [->|[->|[->|[->|(e & ->)]]]])
       |[[-> _]|(base & cur & w1 & w2 & md & _ & _ & _ & -> & _)]]; simpl; auto.
Qed.

(** X15: [main] returns 0 exactly when it has printed a report, and the
    report it prints is the one [compare_to_markdown] returned for the two
    loaded sets, written once to the standard output with nothing else;
    in every other run nothing is written to the standard output. *)
Theorem report_printed_iff_success (fs : string -> read_outcome)
  (set_iter : list Key -> list Key) (args : Namespace) (w : world) :
  (fst (main fs set_iter args w) = OK 0%Z ->
   exists base cur w1 w2 md,
     load fs (baseline args) w = (OK base, w1) /\
     load fs (current args) w1 = (OK cur, w2) /\
     compare_to_markdown set_iter base cur (title args) (note args) = OK md /\
     snd (main fs set_iter args w) = print md w2 /\
     stdout (snd (main fs set_iter args w)) = (stdout w ++ [md])%list) /\
  ((exists s, stdout (snd (main fs set_iter args w)) = (stdout w ++ [s])%list) ->
   fst (main fs set_iter args w) = OK 0%Z) /\
  (fst (main fs set_iter args w) <> OK 0%Z ->
   stdout (snd (main fs set_iter args w)) = stdout w).
Proof.
  assert (N : forall s, stdout w <> (stdout w ++ [s])%list).
  { intros s H. apply (f_equal (@List.length string)) in H.
    rewrite length_app in H. simpl in H. lia. }
  destruct (main_cases fs set_iter args w)
    as [(ex & E & O & _)
       |[[E O]|(base & cur & w1 & w2 & md & L1 & L2 & C & M & O)]].
  - rewrite E. split; [discriminate|]. split; [|auto].
    intros (s & H). rewrite O in H. now apply N in H.
  - rewrite E. split; [discriminate|]. split; [|auto].
    intros (s & H). rewrite O in H. now apply N in H.
  - rewrite M. cbn [fst snd]. split; [|split].
    + intros _. exists base, cur, w1, w2, md. auto 6.
    + reflexivity.
    + intros H. now contradiction H.
Qed.

(** ** The keys of the table, whatever they are made of *)

Lemma SFeqb_sym (x y : spec_float) : SFeqb x y = SFeqb y x.
Proof.
  unfold SFeqb, SFcompare.
  destruct x as [sx|sx| |sx mx ex], y as [sy|sy| |sy my ey]; try reflexivity;
    try (destruct sx, sy; reflexivity).
  change (Pos.compare_cont Eq mx my) with (Pos.compare mx my).
  change (Pos.compare_cont Eq my mx) with (Pos.compare my mx).
  rewrite (Z.compare_antisym ex ey), (Pos.compare_antisym mx my).
  destruct sx, sy, (ex ?= ey)%Z, (mx ?= my)%positive; reflexivity.
Qed.

Lemma num_eqb_sym (x y : num) : num_eqb x y = num_eqb y x.
Proof.
  destruct x as [a|f], y as [b|g]; simpl; try reflexivity.
  - apply Z.eqb_sym.
  - rewrite !FloatAxioms.eqb_spec. apply SFeqb_sym.
Qed.

(** [==] and the test of sets and dicts do not depend on the side an item
    is on. *)
Lemma py_same_sym (a b : atom) : py_same a b = py_same b a.
Proof.
  unfold py_same. rewrite (andb_comm (is_nan a)). f_equal.
  destruct a as [|x|n|f|s], b as [|y|m|g|t]; unfold py_eq; cbn [as_num];
    try reflexivity; try apply num_eqb_sym.
  apply String.eqb_sym.
Qed.

Lemma params_same_sym (p q : list (string * atom)) :
  params_same p q = params_same q p.
Proof.
  revert q. induction p as [|x p IH]; intros [|y q]; simpl; try reflexivity.
  unfold pair_same. now rewrite IH, String.eqb_sym, py_same_sym.
Qed.

Lemma key_same_sym (k1 k2 : Key) : key_same k1 k2 = key_same k2 k1.
Proof. unfold key_same. now rewrite py_same_sym, params_same_sym. Qed.

Lemma insert_permutation {A : Type} (lt : A -> A -> result bool) (x : A)
  (l r : list A) :
  insert lt x l = OK r -> Permutation r (x :: l).
Proof.
  revert r. induction l as [|y l IH]; intros r; simpl.
  - intros H. injection H as <-. reflexivity.
  - destruct (lt y x) as [[|]|e]; simpl; try discriminate.
    + destruct (insert lt x l) as [r'|e]; simpl; try discriminate.
      intros H. injection H as <-. rewrite (IH r' eq_refl). apply perm_swap.
    + intros H. injection H as <-. reflexivity.
Qed.

(** Whatever [sorted] returns holds the items it was given, each as often. *)
Lemma sorted_returns_permutation {A : Type} (lt : A -> A -> result bool)
  (l r : list A) :
  sorted lt l = OK r -> Permutation r l.
Proof.
  revert r. induction l as [|x l IH]; intros r; simpl.
  - intros H. injection H as <-. reflexivity.
  - destruct (sorted lt l) as [s|e]; simpl; try discriminate.
    intros H. apply insert_permutation in H. rewrite H.
    constructor. now apply IH.
Qed.

Lemma fold_set_add_incl (l s : list Key) (k : Key) :
  In k (fold_left set_add l s) -> In k s \/ In k l.
Proof.
  revert s. induction l as [|x l IH]; intros s; simpl; [auto|].
  intros H. apply IH in H as [H|H]; auto.
  unfold set_add in H. destruct (existsb (key_same x) s); auto.
  apply in_app_or in H as [H|[H|[]]]; auto.
Qed.

Lemma fold_set_add_from (l s : list Key) (k : Key) :
  In k s -> In k (fold_left set_add l s).
Proof.
  revert s. induction l as [|x l IH]; intros s H; simpl; [exact H|].
  apply IH. unfold set_add. destruct (existsb (key_same x) s); auto.
  apply in_or_app. auto.
Qed.

(** Every item added to a set is in it, or an item the same as it is. *)
Lemma fold_set_add_cover (l s : list Key) (k : Key) :
  In k l -> exists k', In k' (fold_left set_add l s) /\ key_same k k' = true.
Proof.
  revert s. induction l as [|x l IH]; intros s; simpl; [intros []|].
  intros [->|H]; [|now apply IH].
  unfold set_add. destruct (existsb (key_same k) s) eqn:E.
  - apply existsb_exists in E as (y & Hy & Ey). exists y. split; auto.
    now apply fold_set_add_from.
  - exists k. split; [|apply key_same_refl].
    apply fold_set_add_from, in_or_app. simpl. auto.
Qed.

(** The keys of a dict make a set of as many items. *)
Lemma fold_set_add_distinct (l s : list Key) :
  (forall x y, In x l -> In y s -> key_same x y = false) ->
  ForallOrdPairs (fun a b => key_same b a = false) l ->
  fold_left set_add l s = (s ++ l)%list.
Proof.
  revert s. induction l as [|k l IH]; intros s Hs Hl; simpl.
  - now rewrite app_nil_r.
  - inversion Hl as [|? ? Hk Hl']; subst. rewrite Forall_forall in Hk.
    assert (E : existsb (key_same k) s = false).
    { destruct (existsb (key_same k) s) eqn:E; [|reflexivity].
      apply existsb_exists in E as (y & Hy & Ey).
      rewrite (Hs k y) in Ey; simpl; auto. }
    unfold set_add at 2. rewrite E. rewrite IH; auto.
    + now rewrite <- app_assoc.
    + intros x y Hx Hy. apply in_app_or in Hy as [Hy|[<-|[]]].
      * apply Hs; simpl; auto.
      * now apply Hk.
Qed.

Lemma set_of_keys (d : LoadedSet) : distinct_keys d -> set_of (keys d) = keys d.
Proof.
  intros H. unfold set_of. rewrite fold_set_add_distinct; [reflexivity| |].
  - intros x y _ [].
  - unfold distinct_keys in H. unfold keys.
    induction H as [|[k e] d Hk Hd IH]; simpl; constructor; auto.
    rewrite Forall_forall in *. intros y Hy.
    apply in_map_iff in Hy as (p & <- & Hp).
    rewrite key_same_sym. now apply (Hk p).
Qed.

(** X16: whenever the keys can be sorted, whatever they are made of, the
    rows are for keys of the two sets only, and every key of either set is
    the key of a row or the same as one (as [1] is the same as [1.0]). *)
Theorem sorted_keys_cover (set_iter : list Key -> list Key) (base cur : LoadedSet)
  (ks : list Key) :
  iteration_order set_iter -> distinct_keys cur ->
  sorted_keys set_iter base cur = OK ks ->
  (forall k, In k ks -> In k (keys base) \/ In k (keys cur)) /\
  (forall k, In k (keys base) \/ In k (keys cur) ->
     exists k', In k' ks /\ key_same k k' = true).
Proof.
  intros Hit Hd H. unfold sorted_keys in H.
  apply sorted_returns_permutation in H. rewrite (Hit _) in H.
  unfold set_union in H. rewrite (set_of_keys cur Hd) in H. split.
  - intros k Hk. apply (Permutation_in _ H) in Hk.
    apply fold_set_add_incl in Hk as [Hk|Hk]; auto.
    apply fold_set_add_incl in Hk as [[]|Hk]. auto.
  - intros k [Hk|Hk].
    + destruct (fold_set_add_cover (keys base) [] k Hk) as (k1 & H1 & E1).
      exists k1. split; auto.
      apply (Permutation_in _ (Permutation_sym H)).
      now apply fold_set_add_from.
    + destruct (fold_set_add_cover (keys cur) (set_of (keys base)) k Hk)
        as (k1 & H1 & E1).
      exists k1. split; auto.
      now apply (Permutation_in _ (Permutation_sym H)).
Qed.

Lemma sorted_keys_cover_witness :
  (iteration_order (@rev Key) /\ distinct_keys [(key_one, JDict ex_one)] /\
   sorted_keys (@rev Key) [(key_int, JDict ex_int)] [(key_one, JDict ex_one)]
     = OK [key_int]) /\
  (forall k, In k [key_int] ->
     In k (keys [(key_int, JDict ex_int)]) \/ In k (keys [(key_one, JDict ex_one)])) /\
  (forall k, In k (keys [(key_int, JDict ex_int)]) \/
             In k (keys [(key_one, JDict ex_one)]) ->
     exists k', In k' [key_int] /\ key_same k k' = true).
Proof.
  assert (D : distinct_keys [(key_one, JDict ex_one)]).
  { constructor; constructor. }
  split.
  - split; [exact iteration_order_rev | split; [exact D | reflexivity]].
  - apply (sorted_keys_cover (@rev Key) [(key_int, JDict ex_int)]
             [(key_one, JDict ex_one)] [key_int]);
      [exact iteration_order_rev | exact D | reflexivity].
Defined.
